(** * Transcricao: audio transcription service

    A shallow embedding of [transcription_service.py] (class
    [TranscriptionService]) and of the job handling of [app.py], with the
    properties of the report formatter, of the polling loop and of the job
    orchestration.

    Conventions of the embedding:
    - Python [int] is [Z]; [//] and [%] by a positive constant are [Z.div]
      and [Z.modulo] (both floor); [int(x)] on a float truncates towards
      zero and is [Z.quot] on a rational.
    - Python [float] readings of the clock are exact rationals [Q].
    - [str] is [string] (a sequence of bytes, UTF-8 for the literals).
    - A JSON object whose keys may be absent is a record of [option]s;
      [d.get(k, default)] is [default] on the option.
    - [set] is stdpp's [gset], the [jobs_status] dictionary a [gmap].
    - The outside world (encoder, provider, clock, disk) is a record of
      answers, [World]; effects are recorded in a trace of [Event]s. *)

From Stdlib Require Import ZArith QArith Qround Qabs Lia DecimalString.
From Stdlib Require Import Sorting.Sorted.
From stdpp Require Import base option list sorting gmap strings.

Local Open Scope string_scope.
Local Open Scope Z_scope.

(** ** Strings and numbers *)

Module Py.

(** The line feed of ["\n"]. *)
Definition nl : string := String (Ascii.ascii_of_nat 10) EmptyString.

(** [str(n)] for an [int]. *)
Definition str (n : Z) : string := NilZero.string_of_int (Z.to_int n).

(** [f"{n:02d}"]: sign-aware zero padding to width two. A negative number
    already fills the width with its sign and one digit. *)
Definition fmt_02d (n : Z) : string :=
  if (0 <=? n) && (n <? 10) then "0" ++ str n else str n.

(** [int(x)] for a float [x]: truncation towards zero. *)
Definition int (x : Q) : Z := Z.quot (Qnum x) (Z.pos (Qden x)).

(** Round to the nearest integer, ties to even, as the correctly rounded
    [%.2f] does on the exact value of the float. *)
Definition round_half_even (x : Q) : Z :=
  let f := Qfloor x in
  match Qcompare (x - inject_Z f)%Q (1 # 2)%Q with
  | Lt => f
  | Gt => f + 1
  | Eq => if Z.even f then f else f + 1
  end.

(** [f"{x:.2f}"]. *)
Definition fmt_2f (x : Q) : string :=
  let neg := match Qcompare x 0 with Lt => true | _ => false end in
  let r := round_half_even (Qabs x * inject_Z 100)%Q in
  (if neg then "-" else "") ++ str (r / 100) ++ "." ++ fmt_02d (r mod 100).

(** [str.lower()] on ASCII letters. *)
Definition lower_ascii (c : Ascii.ascii) : Ascii.ascii :=
  let n := Ascii.nat_of_ascii c in
  if (65 <=? n)%nat && (n <=? 90)%nat then Ascii.ascii_of_nat (n + 32) else c.

Fixpoint lower (s : string) : string :=
  match s with
  | EmptyString => EmptyString
  | String c s' => String (lower_ascii c) (lower s')
  end.

(** [x in xs] for a list of strings. *)
Definition str_in (x : string) (xs : list string) : bool :=
  existsb (String.eqb x) xs.

End Py.

(** ** Paths ([pathlib.Path] on normalised POSIX paths) *)

Module Path.

(** Split at the last occurrence of [c]: [s.rpartition(c)]. *)
Fixpoint rsplit (c : Ascii.ascii) (s : string) : option (string * string) :=
  match s with
  | EmptyString => None
  | String a s' =>
      match rsplit c s' with
      | Some (b, r) => Some (String a b, r)
      | None => if Ascii.eqb a c then Some (EmptyString, s') else None
      end
  end.

Definition slash : Ascii.ascii := Ascii.ascii_of_nat 47.
Definition dot : Ascii.ascii := Ascii.ascii_of_nat 46.

(** [Path(p).name] *)
Definition name (p : string) : string :=
  match rsplit slash p with Some (_, n) => n | None => p end.

(** The directory part, with its trailing separator. *)
Definition dir (p : string) : string :=
  match rsplit slash p with Some (d, _) => d ++ "/" | None => "" end.

(** [Path(p).stem] and [Path(p).suffix]: the last dot of the name splits
    it, unless it is the first or the last character. *)
Definition split_ext (p : string) : string * string :=
  let n := name p in
  match rsplit dot n with
  | Some (b, e) =>
      if String.eqb b "" || String.eqb e "" then (n, "")
      else (b, "." ++ e)
  | None => (n, "")
  end.

Definition stem (p : string) : string := fst (split_ext p).
Definition suffix (p : string) : string := snd (split_ext p).

(** [str(Path(p).with_suffix(sfx))] *)
Definition with_suffix (p sfx : string) : string :=
  dir p ++ stem p ++ sfx.

End Path.

(** ** Data model: the provider's payload *)

(** One entry of ["utterances"]; every key may be absent. *)
Record Utterance := {
  u_speaker : option string;
  u_start : option Z;
  u_end : option Z;
  u_text : option string;
}.

(** The JSON object answered by the status endpoint. *)
Record TranscriptData := {
  t_status : string;
  t_text : option string;
  t_language_code : option string;
  t_confidence : option Q;
  t_utterances : option (list Utterance);
  t_error : option string;
}.

(** [u.get('speaker', 'A')], [x.get("start", 0)], ... *)
Definition get_speaker (u : Utterance) : string := default "A" (u_speaker u).
Definition get_start (u : Utterance) : Z := default 0 (u_start u).
Definition get_end (u : Utterance) : Z := default 0 (u_end u).
Definition get_text (u : Utterance) : string := default "" (u_text u).

(** [transcript_data.get("utterances", [])] *)
Definition get_utterances (d : TranscriptData) : list Utterance :=
  default [] (t_utterances d).

(** ** [sorted(xs, key=...)]: the stable sort of Python

    Written as an insertion sort from the right: an element is placed
    before the first element whose key is not smaller, hence before the
    elements of equal key that followed it in the input. *)

Section Sorted.
Context {A : Type} (key : A -> Z).

Fixpoint insert_by (x : A) (l : list A) : list A :=
  match l with
  | [] => [x]
  | y :: l' => if key y <? key x then y :: insert_by x l' else x :: l
  end.

Definition sorted (l : list A) : list A := foldr insert_by [] l.

(** The order of the keys, and the elements of a list that carry a
    given key, in the order of the list. *)
Definition key_le (a b : A) : Prop := key a <= key b.

Definition with_key (k : Z) (l : list A) : list A :=
  filter (fun a => key a = k) l.
End Sorted.

(** ** The report of [save_transcript] *)

(** [len(set(u.get('speaker', 'A') for u in utterances))] *)
Definition speaker_set (us : list Utterance) : gset string :=
  list_to_set (get_speaker <$> us).

Definition count_speakers (us : list Utterance) : nat := size (speaker_set us).

(** Lines 250-261: the raw offset goes through [// 3600], [% 3600 // 60]
    and [% 60]. *)
Definition hh_mm_ss (t : Z) : string :=
  let hours := t / 3600 in
  let minutes := (t mod 3600) / 60 in
  let seconds := t mod 60 in
  (Py.fmt_02d hours ++ ":" ++ Py.fmt_02d minutes ++ ":" ++ Py.fmt_02d seconds)%string.

(** One iteration of the loop over [utterances_sorted]. *)
Definition segment (u : Utterance) : string :=
  ("[" ++ hh_mm_ss (get_start u) ++ " - " ++ hh_mm_ss (get_end u) ++ "] Speaker "
    ++ get_speaker u ++ ": " ++ get_text u ++ Py.nl ++ Py.nl)%string.

Definition utterances_sorted (us : list Utterance) : list Utterance :=
  sorted get_start us.

Definition header : string :=
  ("=== TRANSCRIÇÃO ASSEMBLYAI ===" ++ Py.nl ++ Py.nl)%string.

Definition language_line (d : TranscriptData) : string :=
  match t_language_code d with
  | Some l => ("Idioma detectado: " ++ l ++ Py.nl)%string
  | None => ""
  end.

Definition confidence_line (d : TranscriptData) : string :=
  match t_confidence d with
  | Some c => ("Confiança: " ++ Py.fmt_2f c ++ Py.nl)%string
  | None => ""
  end.

(** Lines 337-338 of [transcribe_audio]:
    [len(set(...)) if utterances else 0]. *)
Definition speakers_count (d : TranscriptData) : nat :=
  match get_utterances d with
  | [] => O
  | utterances => count_speakers utterances
  end.

(** [if utterances:] guards the line: an empty list writes none. *)
Definition speakers_line (us : list Utterance) : string :=
  match us with
  | [] => ""
  | _ => ("Total de falantes: " ++ Py.str (Z.of_nat (count_speakers us)) ++ Py.nl)%string
  end.

Definition segments_header : string :=
  (Py.nl ++ "=== SEGMENTOS COM FALANTES ===" ++ Py.nl ++ Py.nl)%string.

Definition concat_str (l : list string) : string := foldr String.append "" l.

(** The value of [content] when the file is written. *)
Definition content (d : TranscriptData) : string :=
  let utterances := get_utterances d in
  (header ++ language_line d ++ confidence_line d ++ speakers_line utterances
    ++ segments_header ++ concat_str (segment <$> utterances_sorted utterances))%string.

Definition utt (sp : string) (s e : Z) (tx : string) : Utterance :=
  {| u_speaker := Some sp; u_start := Some s; u_end := Some e; u_text := Some tx |}.

(** ** Jobs, the outside world and the state of a run *)

(** [job['status']]: ['uploaded'], ['processing'], ['completed'], ['error']. *)
Inductive JobStatus := uploaded | processing | completed | error.

#[global] Instance JobStatus_eq_dec : EqDecision JobStatus.
Proof. solve_decision. Defined.

(** One value of the [jobs_status] dictionary. The last three keys are
    absent until the run sets them. *)
Record Job := {
  status : JobStatus;
  filename : string;
  filepath : string;
  progress : Z;
  message : string;
  created_at : string;
  result_file : option string;
  language_code : option string;
  completed_at : option string;
}.

Definition with_status (v : JobStatus) (j : Job) : Job :=
  {| status := v; filename := filename j; filepath := filepath j;
     progress := progress j; message := message j; created_at := created_at j;
     result_file := result_file j; language_code := language_code j;
     completed_at := completed_at j |}.

Definition with_progress (v : Z) (j : Job) : Job :=
  {| status := status j; filename := filename j; filepath := filepath j;
     progress := v; message := message j; created_at := created_at j;
     result_file := result_file j; language_code := language_code j;
     completed_at := completed_at j |}.

Definition with_message (v : string) (j : Job) : Job :=
  {| status := status j; filename := filename j; filepath := filepath j;
     progress := progress j; message := v; created_at := created_at j;
     result_file := result_file j; language_code := language_code j;
     completed_at := completed_at j |}.

Definition with_result (file : string) (lang : option string) (at_ : string) (j : Job) : Job :=
  {| status := status j; filename := filename j; filepath := filepath j;
     progress := progress j; message := message j; created_at := created_at j;
     result_file := Some file; language_code := lang;
     completed_at := Some at_ |}.

Inductive Level := INFO | ERROR.

(** What a run does that can be seen from outside, in order. *)
Inductive Event :=
| Progress (p : Z)                      (* job_status['progress'] = p *)
| Log (lvl : Level) (msg : string)      (* logger.info, logger.error *)
| Spawn (input output : string)         (* subprocess.Popen(['ffmpeg', ...]) *)
| Upload (path : string)                (* requests.post(self.upload_url, data=f) *)
| Submit (audio_url : string)           (* requests.post(self.transcribe_url, ...) *)
| Poll (transcript_id : string)         (* requests.get(.../transcript_id) *)
| Sleep (seconds : Q)                   (* time.sleep *)
| WriteFile (path : string)             (* open(output_path, "w") and f.write *)
| Unlink (path : string).               (* converted_file.unlink() *)

(** An answer to an HTTP request: the call raises, or returns a status
    code and the decoded body. *)
Inductive Reply (A : Type) :=
| Raised (e : string)
| Answer (status_code : Z) (body : A).
Arguments Raised {A} e.
Arguments Answer {A} status_code body.

(** The external encoder: [Popen] raises, or the process runs while the
    loop reads the clock ([elapsed], one reading per iteration), exits
    with [returncode] and leaves [output] at the output path ([None]: it
    wrote nothing). *)
Inductive Encoder :=
| NotStarted (e : string)
| Exited (elapsed : list Q) (returncode : Z) (output : option string).

Record World := {
  w_encoder : Encoder;
  w_upload : Reply string;                    (* body: ["upload_url"] *)
  w_submit : Reply string;                    (* body: ["id"] *)
  w_poll : nat -> Reply TranscriptData;       (* the answer to the n-th poll *)
  w_poll_elapsed : nat -> Q;                  (* time.time() - start_time at the n-th poll *)
  w_now : string;                             (* datetime.now().strftime("%Y%m%d_%H%M%S") *)
  w_write_error : option string;              (* writing the report raises *)
  w_unlink_ok : bool;
  w_completed_at : string;                    (* datetime.now().isoformat() *)
}.

(** The shared store: the [jobs_status] dictionary, the files on disk
    (path to content) and the trace so far. A job is referred to by its
    key, as the Python code refers to the one dictionary object. *)
Record St := {
  st_jobs : gmap string Job;
  st_fs : gmap string string;
  st_trace : list Event;
}.

Definition M (A : Type) : Type := St -> A * St.

#[global] Instance M_ret : MRet M := fun A a s => (a, s).
#[global] Instance M_bind : MBind M :=
  fun A B f m s => let '(a, s') := m s in f a s'.

Definition emit (e : Event) : M unit := fun s =>
  (tt, {| st_jobs := st_jobs s; st_fs := st_fs s; st_trace := st_trace s ++ [e] |}).

Definition update_job (job_id : string) (f : Job -> Job) : M unit := fun s =>
  (tt, {| st_jobs := alter f job_id (st_jobs s); st_fs := st_fs s; st_trace := st_trace s |}).

Definition get_fs : M (gmap string string) := fun s => (st_fs s, s).

Definition put_fs (fs : gmap string string) : M unit := fun s =>
  (tt, {| st_jobs := st_jobs s; st_fs := fs; st_trace := st_trace s |}).

Definition log_info (msg : string) : M unit := emit (Log INFO msg).
Definition log_error (msg : string) : M unit := emit (Log ERROR msg).

(** [job_status['progress'] = p] *)
Definition set_progress (job_id : string) (p : Z) : M unit :=
  update_job job_id (with_progress p) ;; emit (Progress p).

(** [job_status['message'] = m] *)
Definition set_message (job_id : string) (m : string) : M unit :=
  update_job job_id (with_message m).

(** ** [TranscriptionService] *)

(** The generator [convert_to_mp3], consumed by the [for] loop of
    [transcribe_audio]: [body] is the loop body, run at every [yield]. *)
Fixpoint convert_loop (body : Z -> M unit) (elapsed : list Q) : M unit :=
  match elapsed with
  | [] => mret tt
  | e :: rest =>
      let progress := Z.min (Py.int (e * inject_Z 10)%Q) 90 in
      body progress ;;
      emit (Sleep (1 # 10)%Q) ;;
      convert_loop body rest
  end.

Definition convert_to_mp3 (w : World) (input_file : string) (body : Z -> M unit)
  : M (option string) :=
  let output_file := Path.with_suffix input_file ".mp3" in
  log_info ("🔄 Convertendo " ++ Path.name input_file ++ " para MP3...")%string ;;
  emit (Spawn input_file output_file) ;;
  match w_encoder w with
  | NotStarted e =>
      log_error ("❌ Erro na conversão: " ++ e)%string ;;
      mret None
  | Exited elapsed returncode output =>
      convert_loop body elapsed ;;
      fs ← get_fs ;
      put_fs (match output with Some c => <[output_file := c]> fs | None => fs end) ;;
      if returncode =? 0 then
        log_info ("✅ Conversão concluída: " ++ Path.name output_file)%string ;;
        body 100 ;;
        mret (Some output_file)
      else
        log_error "❌ Erro na conversão" ;;
        mret None
  end.

Definition upload_file (w : World) (file_path : string) (job_status : string)
  : M (option string) :=
  log_info "📤 Enviando arquivo para AssemblyAI..." ;;
  fs ← get_fs ;
  match fs !! file_path with
  | None =>
      log_error ("❌ Erro no upload: [Errno 2] No such file or directory: '"
                 ++ file_path ++ "'")%string ;;
      mret None
  | Some _ =>
      emit (Upload file_path) ;;
      match w_upload w with
      | Raised e =>
          log_error ("❌ Erro no upload: " ++ e)%string ;;
          mret None
      | Answer status_code upload_url =>
          if status_code =? 200 then
            log_info "✅ Arquivo enviado com sucesso!" ;;
            set_progress job_status 50 ;;
            set_message job_status "Upload concluído! Iniciando transcrição..." ;;
            mret (Some upload_url)
          else
            log_error ("❌ Erro no upload: " ++ Py.str status_code)%string ;;
            mret None
      end
  end.

(** [max_attempts = 60] *)
Definition max_attempts : nat := 60.

(** The progress and message derived from the remote status (lines
    169-181). *)
Definition synthesize (status : string) (elapsed_time : Q) : Z * string :=
  let base_progress := 55 in
  if String.eqb status "queued" then
    (base_progress + Z.min (Py.int (elapsed_time * inject_Z 2)%Q) 10, "Aguardando na fila...")
  else if String.eqb status "processing" then
    (base_progress + 10 + Z.min (Py.int (elapsed_time * inject_Z 3)%Q) 25,
     "Processando transcrição...")
  else
    (base_progress + 35, "Finalizando...").

Definition timeout_message : string :=
  "❌ Timeout: Transcrição demorou muito para completar".

(** The loop [while attempts < max_attempts]; [remaining] is
    [max_attempts - attempts]. A request that raises is caught by the
    handler around the whole method. *)
Fixpoint poll_loop (w : World) (job_status transcript_id : string)
    (remaining attempts : nat) (last_status : option string)
  : M (option TranscriptData) :=
  match remaining with
  | O =>
      log_error timeout_message ;;
      mret None
  | S remaining' =>
      emit (Poll transcript_id) ;;
      match w_poll w attempts with
      | Raised e =>
          log_error ("❌ Erro na transcrição: " ++ e)%string ;;
          mret None
      | Answer status_code polling_response =>
          if negb (status_code =? 200) then
            log_error ("❌ Erro no polling: " ++ Py.str status_code)%string ;;
            mret None
          else
            let status := t_status polling_response in
            let elapsed_time := w_poll_elapsed w attempts in
            let '(progress, message) := synthesize status elapsed_time in
            set_progress job_status (Z.min progress 90) ;;
            set_message job_status message ;;
            let changed :=
              Nat.eqb attempts 0 ||
              negb (match last_status with Some l => String.eqb status l | None => false end) in
            (if changed then log_info ("📊 Status da transcrição: " ++ status)%string
             else mret tt) ;;
            let last_status := if changed then Some status else last_status in
            if String.eqb status "completed" then
              log_info "✅ Transcrição concluída!" ;;
              set_progress job_status 95 ;;
              set_message job_status "Transcrição concluída!" ;;
              mret (Some polling_response)
            else if String.eqb status "error" then
              log_error ("❌ Erro na transcrição: "
                         ++ default "None" (t_error polling_response))%string ;;
              mret None
            else
              emit (Sleep (inject_Z 5)) ;;
              poll_loop w job_status transcript_id remaining' (S attempts) last_status
      end
  end.

Definition transcribe_audio_api (w : World) (upload_url : string) (job_status : string)
  : M (option TranscriptData) :=
  log_info "⏳ Iniciando transcrição..." ;;
  set_progress job_status 55 ;;
  set_message job_status "Iniciando transcrição..." ;;
  emit (Submit upload_url) ;;
  match w_submit w with
  | Raised e =>
      log_error ("❌ Erro na transcrição: " ++ e)%string ;;
      mret None
  | Answer status_code transcript_id =>
      if negb (status_code =? 200) then
        log_error ("❌ Erro na requisição: " ++ Py.str status_code)%string ;;
        mret None
      else
        log_info ("📋 ID da transcrição: " ++ transcript_id)%string ;;
        poll_loop w job_status transcript_id max_attempts 0 None
  end.

(** The [DEBUG RAW] line logged for every utterance of the loop. *)
Definition debug_raw (u : Utterance) : string :=
  ("DEBUG RAW: start=" ++ Py.str (get_start u) ++ ", end=" ++ Py.str (get_end u)
    ++ ", speaker=" ++ get_speaker u)%string.

Fixpoint log_each (l : list Utterance) : M unit :=
  match l with
  | [] => mret tt
  | u :: l' => log_info (debug_raw u) ;; log_each l'
  end.

(** [self.output_dir] *)
Definition output_dir : string := "results".

Definition output_path (w : World) (original_filename : string) : string :=
  (output_dir ++ "/" ++ w_now w ++ "_" ++ Path.stem original_filename
    ++ "_transcript.txt")%string.

Definition save_transcript (w : World) (transcript_data : TranscriptData)
    (original_filename : string) : M (option string) :=
  let path := output_path w original_filename in
  log_each (utterances_sorted (get_utterances transcript_data)) ;;
  match w_write_error w with
  | Some e =>
      log_error ("❌ Erro ao salvar transcrição: " ++ e)%string ;;
      mret None
  | None =>
      fs ← get_fs ;
      put_fs (<[path := content transcript_data]> fs) ;;
      emit (WriteFile path) ;;
      log_info ("✅ Transcrição salva: " ++ path)%string ;;
      mret (Some path)
  end.

(** The dictionary returned by [transcribe_audio]. *)
Inductive Result :=
| Success (transcript_file : string) (language_code : option string)
          (speakers_count : nat) (message : string)
| Failure (error : string).

Definition needs_conversion (file_path : string) : bool :=
  Py.str_in (Py.lower (Path.suffix file_path)) [".m4a"; ".aac"; ".ogg"; ".opus"].

(** [converted_file.unlink()] inside [try: ... except: pass]. *)
Definition unlink (w : World) (path : string) : M unit :=
  emit (Unlink path) ;;
  fs ← get_fs ;
  if w_unlink_ok w then put_fs (delete path fs) else mret tt.

(** [transcribe_audio] from the upload on (lines 302-351). *)
Definition upload_and_transcribe (w : World) (file_path process_file : string)
    (job_status : string) : M Result :=
  set_progress job_status 40 ;;
  set_message job_status "Enviando arquivo..." ;;
  upload_url ← upload_file w process_file job_status ;
  match upload_url with
  | None | Some EmptyString => mret (Failure "Falha no upload")
  | Some upload_url =>
      set_progress job_status 50 ;;
      set_message job_status "Processando transcrição..." ;;
      transcript_data ← transcribe_audio_api w upload_url job_status ;
      match transcript_data with
      | None => mret (Failure "Falha na transcrição")
      | Some transcript_data =>
          set_progress job_status 95 ;;
          set_message job_status "Salvando resultado..." ;;
          result_file ← save_transcript w transcript_data (Path.name file_path) ;
          match result_file with
          | None => mret (Failure "Falha ao salvar transcrição")
          | Some result_file =>
              (if needs_conversion file_path
               then unlink w (Path.with_suffix file_path ".mp3")
               else mret tt) ;;
              let speakers_count := speakers_count transcript_data in
              set_progress job_status 100 ;;
              set_message job_status "Transcrição concluída com sucesso!" ;;
              mret (Success result_file (t_language_code transcript_data)
                            speakers_count "Transcrição concluída com sucesso!")
          end
      end
  end.

(** The body of [for progress in self.convert_to_mp3(file_path)]
    (lines 289-292); [progress * 0.3] is taken on the exact rationals. *)
Definition conversion_progress (job_status : string) (progress : Z) : M unit :=
  set_progress job_status (10 + Py.int (inject_Z progress * (3 # 10))%Q) ;;
  set_message job_status ("Convertendo arquivo... " ++ Py.str progress ++ "%")%string ;;
  emit (Sleep (1 # 10)%Q).

Definition transcribe_audio (w : World) (file_path : string) (job_status : string)
  : M Result :=
  if needs_conversion file_path then
    log_info ("🔄 Convertendo " ++ Path.suffix file_path ++ " para MP3")%string ;;
    convert_to_mp3 w file_path (conversion_progress job_status) ;;
    let converted_file := Path.with_suffix file_path ".mp3" in
    fs ← get_fs ;
    match fs !! converted_file with
    | None => mret (Failure "Falha na conversão")
    | Some _ => upload_and_transcribe w file_path converted_file job_status
    end
  else
    upload_and_transcribe w file_path file_path job_status.

(** ** [app.py]: the job endpoints *)

(** [jsonify(...)] with its status code. *)
Record Response := {
  r_code : Z;
  r_body : list (string * string);
}.

(** The two branches on [result['success']] that end
    [process_transcription]. *)
Definition finish (w : World) (job_id : string) (result : Result) : M unit :=
  match result with
  | Success transcript_file lang _ _ =>
      update_job job_id (with_status completed) ;;
      set_progress job_id 100 ;;
      set_message job_id "Transcrição concluída!" ;;
      update_job job_id (with_result transcript_file lang (w_completed_at w))
  | Failure e =>
      update_job job_id (with_status error) ;;
      set_message job_id ("Erro: " ++ e)%string
  end.

(** [process_transcription], the body of the background thread. The
    thread is only started for a key of [jobs_status]; for another key the
    lookup raises before anything is written. *)
Definition process_transcription (w : World) (job_id : string) : M unit := fun s =>
  match st_jobs s !! job_id with
  | None => (tt, s)
  | Some job =>
      (set_progress job_id 10 ;;
       set_message job_id "Convertendo arquivo..." ;;
       result ← transcribe_audio w (filepath job) job_id ;
       finish w job_id result) s
  end.

(** [start_transcription]: the response, and whether the thread was
    started. *)
Definition start_transcription (job_id : string) : M (Response * bool) := fun s =>
  match st_jobs s !! job_id with
  | None => ({| r_code := 404; r_body := [("error", "Job não encontrado")] |}, false, s)
  | Some job =>
      if negb (bool_decide (status job = uploaded)) then
        ({| r_code := 400; r_body := [("error", "Job já processado")] |}, false, s)
      else
        (update_job job_id (with_status processing) ;;
         set_progress job_id 0 ;;
         set_message job_id "Iniciando transcrição..." ;;
         mret ({| r_code := 200;
                  r_body := [("job_id", job_id); ("status", "processing");
                             ("message", "Transcrição iniciada")] |}, true)) s
  end.

(** A request to [/transcribe/<job_id>] followed by the run of the thread
    it started. *)
Definition run (w : World) (job_id : string) : M Response :=
  r ← start_transcription job_id ;
  (if snd (r : Response * bool) then process_transcription w job_id else mret tt) ;;
  mret (fst r).

(** The state in which the thread of an accepted request calls
    [transcribe_audio]. *)
Definition entered (job_id : string) (s : St) : St :=
  ((update_job job_id (with_status processing) ;;
    set_progress job_id 0 ;;
    set_message job_id "Iniciando transcrição..." ;;
    set_progress job_id 10 ;;
    set_message job_id "Convertendo arquivo...") s).2.

(** The values written to [progress], in order. *)
Definition progress_writes (tr : list Event) : list Z :=
  omap (fun e => match e with Progress p => Some p | _ => None end) tr.

Definition uploads (tr : list Event) : list string :=
  omap (fun e => match e with Upload p => Some p | _ => None end) tr.

Definition polls (tr : list Event) : list string :=
  omap (fun e => match e with Poll i => Some i | _ => None end) tr.

Definition sleeps (tr : list Event) : list Q :=
  omap (fun e => match e with Sleep d => Some d | _ => None end) tr.

Definition unlinks (tr : list Event) : list string :=
  omap (fun e => match e with Unlink p => Some p | _ => None end) tr.

Definition errors (tr : list Event) : list string :=
  omap (fun e => match e with Log ERROR m => Some m | _ => None end) tr.

(** ** Concrete worlds used in the examples *)

Definition new_job (path : string) : Job :=
  {| status := uploaded; filename := Path.name path; filepath := path; progress := 0;
     message := "Arquivo enviado com sucesso"; created_at := "2025-09-03T21:56:13";
     result_file := None; language_code := None; completed_at := None |}.

Definition initial (job_id path : string) : St :=
  {| st_jobs := {[ job_id := new_job path ]};
     st_fs := {[ path := "audio" ]};
     st_trace := [] |}.

Definition answer (status : string) (us : list Utterance) : TranscriptData :=
  {| t_status := status; t_text := Some "hello there"; t_language_code := Some "pt";
     t_confidence := Some (93 # 100)%Q; t_utterances := Some us; t_error := None |}.

(** The encoder succeeds, the upload succeeds, the provider answers
    queued, processing, completed. *)
Definition good_world : World :=
  {| w_encoder := Exited [0%Q; (1 # 2)%Q; 1%Q] 0 (Some "mp3");
     w_upload := Answer 200 "https://cdn/upload/1";
     w_submit := Answer 200 "tid";
     w_poll := fun n => match n with
                        | O => Answer 200 (answer "queued" [])
                        | 1%nat => Answer 200 (answer "processing" [])
                        | _ => Answer 200 (answer "completed"
                                 [utt "B" 62 65 "there"; utt "A" 3 5 "hello"])
                        end;
     w_poll_elapsed := fun n => inject_Z (5 * Z.of_nat n);
     w_now := "20250903_215613";
     w_write_error := None;
     w_unlink_ok := true;
     w_completed_at := "2025-09-03T21:57:00" |}.

(** The same answers at a later reading of the clock. *)
Definition later_world : World :=
  {| w_encoder := w_encoder good_world; w_upload := w_upload good_world;
     w_submit := w_submit good_world; w_poll := w_poll good_world;
     w_poll_elapsed := w_poll_elapsed good_world;
     w_now := "20260101_000000";
     w_write_error := None; w_unlink_ok := true;
     w_completed_at := "2026-01-01T00:00:05" |}.

(** Variations of a world. *)
Definition with_encoder (e : Encoder) (w : World) : World :=
  {| w_encoder := e; w_upload := w_upload w; w_submit := w_submit w;
     w_poll := w_poll w; w_poll_elapsed := w_poll_elapsed w; w_now := w_now w;
     w_write_error := w_write_error w; w_unlink_ok := w_unlink_ok w;
     w_completed_at := w_completed_at w |}.

Definition with_upload (r : Reply string) (w : World) : World :=
  {| w_encoder := w_encoder w; w_upload := r; w_submit := w_submit w;
     w_poll := w_poll w; w_poll_elapsed := w_poll_elapsed w; w_now := w_now w;
     w_write_error := w_write_error w; w_unlink_ok := w_unlink_ok w;
     w_completed_at := w_completed_at w |}.

Definition with_poll (f : nat -> Reply TranscriptData) (w : World) : World :=
  {| w_encoder := w_encoder w; w_upload := w_upload w; w_submit := w_submit w;
     w_poll := f; w_poll_elapsed := w_poll_elapsed w; w_now := w_now w;
     w_write_error := w_write_error w; w_unlink_ok := w_unlink_ok w;
     w_completed_at := w_completed_at w |}.

(** A provider that never finishes. *)
Definition always_processing : nat -> Reply TranscriptData :=
  fun _ => Answer 200 (answer "processing" []).

(** A provider whose status moves back from processing to queued. *)
Definition backward_poll : nat -> Reply TranscriptData :=
  fun n => match n with
           | O | 1%nat => Answer 200 (answer "processing" [])
           | 2%nat => Answer 200 (answer "queued" [])
           | _ => Answer 200 (answer "completed" [utt "A" 3 5 "hello"])
           end.

(** The state after the request and the run of its thread. *)
Definition after_run (w : World) (job_id path : string) : St :=
  (run w job_id (initial job_id path)).2.

(** ** Specifications of monadic code *)

(** [emits P m]: from any state, [m] keeps the keys of [jobs_status] and
    appends to the trace a list of events that satisfies [P]. *)
Definition emits {A : Type} (P : list Event -> Prop) (m : M A) : Prop :=
  forall s, dom (st_jobs (m s).2) = dom (st_jobs s) /\
            exists tr, st_trace (m s).2 = (st_trace s ++ tr)%list /\ P tr.


(** The values [ws] never decrease and stay between [lo] and [hi]. *)
Definition within (lo hi : Z) (ws : list Z) : Prop :=
  lo <= hi /\ Forall (fun v => lo <= v <= hi) ws /\ StronglySorted Z.le ws.

(** [phase lo hi m]: the progress values written by [m] never decrease
    and stay between [lo] and [hi]. *)
Definition phase {A : Type} (lo hi : Z) (m : M A) : Prop :=
  emits (fun tr => within lo hi (progress_writes tr)) m.

(** [quiet m]: [m] writes no progress. *)
Definition quiet {A : Type} (m : M A) : Prop :=
  emits (fun tr => progress_writes tr = []) m.

(** The progress written at a poll (line 185). *)
Definition poll_value (status : string) (elapsed : Q) : Z :=
  Z.min (synthesize status elapsed).1 90.

(** The progress written at a reading [e] of the clock during the
    conversion (lines 69 and 290). *)
Definition conversion_value (e : Q) : Z :=
  10 + Py.int (inject_Z (Z.min (Py.int (e * inject_Z 10)%Q) 90) * (3 # 10))%Q.

(** The n-th poll is answered with a status that is neither
    ["completed"] nor ["error"]. *)
Definition nonterminal (w : World) (i : nat) : Prop :=
  exists d, w_poll w i = Answer 200 d /\
            t_status d <> "completed" /\ t_status d <> "error".

(** The order in which the provider's statuses follow each other. *)
Definition rank (status : string) : nat :=
  if String.eqb status "queued" then 0
  else if String.eqb status "processing" then 1
  else 2.

Definition statuses_forward (w : World) : Prop :=
  forall i j d d', (i <= j)%nat ->
    w_poll w i = Answer 200 d -> w_poll w j = Answer 200 d' ->
    (rank (t_status d) <= rank (t_status d'))%nat.

(** The readings of the clock are elapsed times that do not go back. *)
Definition clock_forward (w : World) : Prop :=
  (forall i, (0 <= w_poll_elapsed w i)%Q) /\
  (forall i j, (i <= j)%nat -> (w_poll_elapsed w i <= w_poll_elapsed w j)%Q) /\
  match w_encoder w with
  | Exited elapsed _ _ => Forall (Qle 0) elapsed /\ StronglySorted Qle elapsed
  | NotStarted _ => True
  end.

(** ** [app.py]: upload, status and download *)

Module App.

(** A JSON value of a response body. *)
Inductive Json := JStr (s : string) | JInt (n : Z) | JNull.

(** What a view function returns: [jsonify(...)] with its status code,
    the response of [send_file(...)] with the content of the file it opened
    and the download name, or an exception that Flask turns into a 500. *)
Inductive View :=
| Jsonify (code : Z) (body : list (string * Json))
| SendFile (content download_name : string)
| Raises (e : string).

(** The directory [app.root_path] of [app.py], as seen from the working
    directory of the process. The paths of the state are those the process
    opens, relative to its working directory; [Elsewhere files] is a root
    path that is another directory, with the files found below it. *)
Inductive RootPath :=
| WorkingDirectory
| Elsewhere (files : gmap string string).

(** [os.path.isabs(p)] *)
Definition isabs (p : string) : bool :=
  match p with
  | String c _ => bool_decide (c = Path.slash)
  | EmptyString => false
  end.

(** [os.path.exists(p)]: a relative path is looked up from the working
    directory. *)
Definition exists_ (p : string) (s : St) : bool :=
  bool_decide (is_Some (st_fs s !! p)).

(** [send_file(p, as_attachment=True, download_name=...)]: Flask joins a
    relative path with [app.root_path], not with the working directory, and
    raises when there is no file there. *)
Definition send_file (root : RootPath) (p download_name : string) (s : St) : View :=
  let found :=
    if isabs p then st_fs s !! p
    else match root with
         | WorkingDirectory => st_fs s !! p
         | Elsewhere files => files !! p
         end in
  match found with
  | Some content => SendFile content download_name
  | None => Raises "FileNotFoundError"
  end.

(** [s.endswith(sfx)] *)
Fixpoint endswith (sfx s : string) : bool :=
  String.eqb s sfx ||
  match s with
  | EmptyString => false
  | String _ s' => endswith sfx s'
  end.

(** [allowed_extensions] of the upload view. *)
Definition allowed_extensions : list string :=
  ["mp3"; "wav"; "m4a"; "flac"; "aac"; "ogg"; "opus"].

(** [file.filename.lower().endswith(tuple('.' + ext for ext in
    allowed_extensions))] *)
Definition allowed_file (filename : string) : bool :=
  existsb (fun ext => endswith ("." ++ ext) (Py.lower filename)) allowed_extensions.

(** [request.files['file']]: the name given by the client and the
    content. *)
Record FileStorage := {
  f_filename : string;
  f_content : string;
}.

(** What the upload view takes from outside: werkzeug's
    [secure_filename], the two readings of the clock, the identifier
    drawn by [uuid.uuid4()], and whether [file.save] raises. *)
Record Env := {
  secure_filename : string -> string;
  e_timestamp : string;          (* datetime.now().strftime("%Y%m%d_%H%M%S") *)
  e_job_id : string;             (* str(uuid.uuid4()) *)
  e_created_at : string;         (* datetime.now().isoformat() *)
  e_save_error : option string;
}.

(** [app.config['UPLOAD_FOLDER']] *)
Definition upload_folder : string := "uploads".

Definition upload_path (env : Env) (file : FileStorage) : string :=
  (upload_folder ++ "/" ++ e_timestamp env ++ "_" ++ secure_filename env (f_filename file))%string.

(** [jobs_status[job_id] = {...}] *)
Definition register_job (job_id : string) (job : Job) : M unit := fun s =>
  (tt, {| st_jobs := <[job_id := job]> (st_jobs s); st_fs := st_fs s;
          st_trace := st_trace s |}).

(** The view [upload_file] of [/upload]. *)
Definition upload_file (env : Env) (file : option FileStorage) : M View :=
  match file with
  | None => mret (Jsonify 400 [("error", JStr "Nenhum arquivo enviado")])
  | Some file =>
      if String.eqb (f_filename file) "" then
        mret (Jsonify 400 [("error", JStr "Nenhum arquivo selecionado")])
      else if negb (allowed_file (f_filename file)) then
        mret (Jsonify 400 [("error", JStr "Formato de arquivo não suportado")])
      else
        let filename := secure_filename env (f_filename file) in
        let filepath := upload_path env file in
        match e_save_error env with
        | Some e =>
            log_error ("Erro no upload: " ++ e)%string ;;
            mret (Jsonify 500 [("error", JStr e)])
        | None =>
            fs ← get_fs ;
            put_fs (<[filepath := f_content file]> fs) ;;
            register_job (e_job_id env)
              {| status := uploaded; filename := filename; filepath := filepath;
                 progress := 0; message := "Arquivo enviado com sucesso";
                 created_at := e_created_at env;
                 result_file := None; language_code := None; completed_at := None |} ;;
            log_info ("Arquivo enviado: " ++ filename ++ " -> " ++ filepath)%string ;;
            mret (Jsonify 200 [("job_id", JStr (e_job_id env));
                               ("filename", JStr filename);
                               ("message", JStr "Arquivo enviado com sucesso")])
        end
  end.

(** The string stored under ['status']. *)
Definition status_str (st : JobStatus) : string :=
  match st with
  | uploaded => "uploaded"
  | processing => "processing"
  | completed => "completed"
  | error => "error"
  end.

(** [job.get(key)] in a JSON body: [null] for an absent key. *)
Definition opt_json (o : option string) : Json :=
  match o with Some v => JStr v | None => JNull end.

(** The view [get_status] of [/status/<job_id>]. *)
Definition get_status (job_id : string) (s : St) : View :=
  match st_jobs s !! job_id with
  | None => Jsonify 404 [("error", JStr "Job não encontrado")]
  | Some job =>
      Jsonify 200 [("job_id", JStr job_id);
                   ("status", JStr (status_str (status job)));
                   ("progress", JInt (progress job));
                   ("message", JStr (message job));
                   ("filename", JStr (filename job));
                   ("result_file", opt_json (result_file job));
                   ("language_code", opt_json (language_code job));
                   ("created_at", JStr (created_at job));
                   ("completed_at", opt_json (completed_at job))]
  end.

(** The view [download_result] of [/download/<job_id>], in a server whose
    [app.root_path] is [root]. *)
Definition download_result (root : RootPath) (job_id : string) (s : St) : View :=
  match st_jobs s !! job_id with
  | None => Jsonify 404 [("error", JStr "Job não encontrado")]
  | Some job =>
      if negb (bool_decide (status job = completed)) then
        Jsonify 400 [("error", JStr "Transcrição não concluída")]
      else
        match result_file job with
        | None => Raises "KeyError: 'result_file'"
        | Some result_file =>
            if negb (exists_ result_file s) then
              Jsonify 404 [("error", JStr "Arquivo não encontrado")]
            else
              let download_name := (Path.stem (filename job) ++ "_transcricao.txt")%string in
              send_file root result_file download_name s
        end
  end.

End App.

(** ** Further specifications *)

(** [c] does not occur in [s]. *)
Fixpoint absent (c : Ascii.ascii) (s : string) : Prop :=
  match s with
  | EmptyString => True
  | String a s' => a <> c /\ absent c s'
  end.

(** The report files written, in order. *)
Definition written (tr : list Event) : list string :=
  omap (fun e => match e with WriteFile p => Some p | _ => None end) tr.

(** The fields of a job that [TranscriptionService] never writes. *)
Definition kept (j j' : Job) : Prop :=
  status j' = status j /\ filename j' = filename j /\ filepath j' = filepath j /\
  created_at j' = created_at j /\ result_file j' = result_file j /\
  language_code j' = language_code j /\ completed_at j' = completed_at j.

(** Between two states, only the progress and the message of the job
    [job_id] may differ in [jobs_status]. *)
Definition jobs_confined (job_id : string) (s s' : St) : Prop :=
  (forall k, k <> job_id -> st_jobs s' !! k = st_jobs s !! k) /\
  (forall j, st_jobs s !! job_id = Some j ->
             exists j', st_jobs s' !! job_id = Some j' /\ kept j j').

(** [confined job_id hi m]: [m] changes nothing in [jobs_status] but the
    progress and the message of [job_id], writes no progress above [hi]
    and writes no report. *)
Definition confined {A : Type} (job_id : string) (hi : Z) (m : M A) : Prop :=
  forall s,
    jobs_confined job_id s (m s).2 /\
    exists tr, st_trace (m s).2 = (st_trace s ++ tr)%list /\
               Forall (fun v => v <= hi) (progress_writes tr) /\
               written tr = [].

(** An event allowed under [confined]. *)
Definition allowed_event (hi : Z) (e : Event) : Prop :=
  match e with
  | Progress p => p <= hi
  | WriteFile _ => False
  | _ => True
  end.

(** What the trace of [transcribe_audio] shows for its result: a failure
    has written no progress above 95 and no report; a success has
    written its one report and ends on progress 100. *)
Definition outcome_ok (r : Result) (tr : list Event) : Prop :=
  match r with
  | Failure _ => Forall (fun v => v <= 95) (progress_writes tr) /\ written tr = []
  | Success tf _ _ _ => last (progress_writes tr) = Some 100 /\ written tr = [tf]
  end.

Definition settled (job_id : string) (m : M Result) : Prop :=
  forall s,
    jobs_confined job_id s (m s).2 /\
    exists tr, st_trace (m s).2 = (st_trace s ++ tr)%list /\
               Forall (fun v => v <= 100) (progress_writes tr) /\
               outcome_ok (m s).1 tr.

(** The last character of a string. *)
Fixpoint last_char (s : string) : option Ascii.ascii :=
  match s with
  | EmptyString => None
  | String c s' => match last_char s' with Some x => Some x | None => Some c end
  end.

(** A loop body that records what the generator yields. *)
Definition record_yield (progress : Z) : M unit := emit (Progress progress).

(** The provider answers every request of a run and reports the payload
    [d] as completed at the poll [n], after polls that report neither
    completed nor error; the report can be written. *)
Definition provider_completes (w : World) (n : nat) (d : TranscriptData) : Prop :=
  (exists url, w_upload w = Answer 200 url /\ url <> "") /\
  (exists id, w_submit w = Answer 200 id) /\
  (n < 60)%nat /\
  (forall i, (i < n)%nat -> nonterminal w i) /\
  w_poll w n = Answer 200 d /\ t_status d = "completed" /\
  w_write_error w = None.

(** The errors that [transcribe_audio] returns. *)
Definition failures : list string :=
  ["Falha na conversão"; "Falha no upload"; "Falha na transcrição";
   "Falha ao salvar transcrição"].





(** * Properties *)

(** ** The embedding on concrete inputs *)

Example stem_ogg : Path.stem "uploads/20250903_talk.v2.ogg" = "20250903_talk.v2".
Proof. reflexivity. Qed.

Example suffix_upper : Py.lower (Path.suffix "uploads/a.OGG") = ".ogg".
Proof. reflexivity. Qed.

Example with_suffix_ogg : Path.with_suffix "uploads/a.ogg" ".mp3" = "uploads/a.mp3".
Proof. reflexivity. Qed.

Example fmt_02d_examples :
  Py.fmt_02d 7 = "07" /\ Py.fmt_02d 12 = "12" /\ Py.fmt_02d 1034 = "1034" /\
  Py.fmt_02d (-5) = "-5".
Proof. repeat split; reflexivity. Qed.

Example fmt_2f_examples :
  Py.fmt_2f (987 # 1000)%Q = "0.99" /\ Py.fmt_2f 1%Q = "1.00" /\
  Py.fmt_2f (1 # 8)%Q = "0.12" /\ Py.fmt_2f (3 # 8)%Q = "0.38".
Proof. repeat split; vm_compute; reflexivity. Qed.

Example content_two_speakers :
  content (answer "completed" [utt "B" 62 65 "there"; utt "A" 3 5 "hello"]) =
  ("=== TRANSCRIÇÃO ASSEMBLYAI ===" ++ Py.nl ++ Py.nl ++
   "Idioma detectado: pt" ++ Py.nl ++
   "Confiança: 0.93" ++ Py.nl ++
   "Total de falantes: 2" ++ Py.nl ++ Py.nl ++
   "=== SEGMENTOS COM FALANTES ===" ++ Py.nl ++ Py.nl ++
   "[00:00:03 - 00:00:05] Speaker A: hello" ++ Py.nl ++ Py.nl ++
   "[00:01:02 - 00:01:05] Speaker B: there" ++ Py.nl ++ Py.nl)%string.
Proof. vm_compute. reflexivity. Qed.

Example good_run_progress :
  progress_writes (st_trace (run good_world "j1" (initial "j1" "uploads/a.ogg")).2) =
  [0; 10; 10; 11; 13; 40; 40; 50; 50; 55; 55; 80; 90; 95; 95; 100; 100].
Proof. vm_compute. reflexivity. Qed.

Example good_run_job :
  (st_jobs (run good_world "j1" (initial "j1" "uploads/a.ogg")).2) !! "j1" =
  Some {| status := completed; filename := "a.ogg"; filepath := "uploads/a.ogg";
          progress := 100; message := "Transcrição concluída!";
          created_at := "2025-09-03T21:56:13";
          result_file := Some "results/20250903_215613_a_transcript.txt";
          language_code := Some "pt"; completed_at := Some "2025-09-03T21:57:00" |}.
Proof. vm_compute. reflexivity. Qed.

(** ** [sorted] is a stable sort *)

Section SortedFacts.
Context {A : Type} (key : A -> Z).

Lemma insert_by_perm x l : insert_by key x l ≡ₚ x :: l.
Proof.
  induction l as [|y l IH]; simpl; [done|].
  destruct (key y <? key x); [|done].
  rewrite IH. apply Permutation_swap.
Qed.

Lemma sorted_perm l : sorted key l ≡ₚ l.
Proof.
  induction l as [|x l IH]; simpl; [done|].
  rewrite insert_by_perm. by rewrite IH.
Qed.

Lemma insert_by_sorted x l :
  StronglySorted (key_le key) l -> StronglySorted (key_le key) (insert_by key x l).
Proof.
  induction l as [|y l IH]; intros Hl; simpl.
  - repeat constructor.
  - apply StronglySorted_inv in Hl as [Hl Hy].
    destruct (key y <? key x) eqn:E.
    + apply Z.ltb_lt in E. constructor; [by apply IH|].
      rewrite insert_by_perm. constructor; [unfold key_le; lia | done].
    + apply Z.ltb_ge in E. constructor; [by constructor|].
      constructor; [done|].
      eapply Forall_impl; [exact Hy|]. unfold key_le. intros; simpl in *; lia.
Qed.

Lemma sorted_sorted l : StronglySorted (key_le key) (sorted key l).
Proof.
  induction l as [|x l IH]; simpl; [constructor|]. by apply insert_by_sorted.
Qed.

(** Elements of one key keep the order of the input. *)
Lemma insert_by_with_key k x l :
  with_key key k (insert_by key x l) = with_key key k (x :: l).
Proof.
  unfold with_key. induction l as [|y l IH]; simpl; [done|].
  destruct (key y <? key x) eqn:E; [|done].
  apply Z.ltb_lt in E.
  rewrite filter_cons, IH, !filter_cons.
  repeat case_decide; try done; lia.
Qed.

Lemma sorted_stable k l : with_key key k (sorted key l) = with_key key k l.
Proof.
  induction l as [|x l IH]; simpl; [done|].
  rewrite insert_by_with_key. unfold with_key in *.
  by rewrite !filter_cons, IH.
Qed.

(** A sorted list is determined by its classes of equal key: whatever
    stable sorting algorithm is run, the result is that of [sorted]. *)
Lemma stable_sorted_unique l1 l2 :
  StronglySorted (key_le key) l1 -> StronglySorted (key_le key) l2 ->
  (forall k, with_key key k l1 = with_key key k l2) -> l1 = l2.
Proof.
  revert l2. induction l1 as [|x l1 IH]; intros l2 H1 H2 Hk.
  - destruct l2 as [|y l2]; [done|].
    specialize (Hk (key y)). unfold with_key in Hk.
    rewrite filter_nil, filter_cons in Hk. by case_decide.
  - destruct l2 as [|y l2].
    { specialize (Hk (key x)). unfold with_key in Hk.
      rewrite filter_nil, filter_cons in Hk. by case_decide. }
    apply StronglySorted_inv in H1 as [H1 Hx].
    apply StronglySorted_inv in H2 as [H2 Hy].
    assert (key x <= key y) as Hxy.
    { assert (y ∈ with_key key (key y) (x :: l1)) as Hin.
      { rewrite Hk. unfold with_key. rewrite filter_cons.
        case_decide; [left | done]. }
      unfold with_key in Hin. apply list_elem_of_filter in Hin as [_ Hin].
      apply elem_of_cons in Hin as [->|Hin]; [lia|].
      rewrite Forall_forall in Hx. by apply Hx. }
    assert (key y <= key x) as Hyx.
    { assert (x ∈ with_key key (key x) (y :: l2)) as Hin.
      { rewrite <- Hk. unfold with_key. rewrite filter_cons.
        case_decide; [left | done]. }
      unfold with_key in Hin. apply list_elem_of_filter in Hin as [_ Hin].
      apply elem_of_cons in Hin as [->|Hin]; [lia|].
      rewrite Forall_forall in Hy. by apply Hy. }
    assert (key x = key y) as Heq by lia.
    pose proof (Hk (key x)) as Hkx. unfold with_key in Hkx.
    rewrite !filter_cons in Hkx.
    destruct (decide (key x = key x)); [|done].
    destruct (decide (key y = key x)); [|lia].
    injection Hkx as -> Hrest.
    f_equal. apply IH; [done..|].
    intros k. destruct (decide (key y = k)) as [<-|Hne]; [done|].
    specialize (Hk k). unfold with_key in *.
    rewrite !filter_cons in Hk.
    by destruct (decide (key y = k)).
Qed.
End SortedFacts.

(** ** The report *)

(** C1. The formatter divides the raw offset by 3600 and 60, as if it were
    a number of seconds. The provider reports milliseconds, so the start
    offset 3723000 (1 h 2 min 3 s) is rendered ["1034:10:00"] and not
    ["01:02:03"]; only the raw value 3723 is rendered ["01:02:03"]. *)
Theorem C1_start_3723000_is_rendered_1034_10_00 :
  segment (utt "A" 3723000 3725000 "hi") =
    ("[1034:10:00 - 1034:43:20] Speaker A: hi" ++ Py.nl ++ Py.nl)%string /\
  hh_mm_ss 3723000 = "1034:10:00" /\
  hh_mm_ss 3723000 <> "01:02:03" /\
  hh_mm_ss 3723 = "01:02:03".
Proof. repeat split; try reflexivity. vm_compute. discriminate. Qed.

(** Two utterances of equal start stay in the order of the payload. *)
Example ties_keep_input_order :
  get_text <$> utterances_sorted [utt "A" 7 9 "late"; utt "A" 2 3 "first"; utt "B" 2 4 "second"]
  = ["first"; "second"; "late"].
Proof. reflexivity. Qed.

(** The size of the speaker set is the length of any duplicate-free
    enumeration of the labels. *)
Lemma count_speakers_enumeration (us : list Utterance) (labels : list string) :
  NoDup labels ->
  (forall x, x ∈ labels <-> exists u, u ∈ us /\ get_speaker u = x) ->
  count_speakers us = length labels.
Proof.
  intros Hnd Hl. unfold count_speakers, speaker_set.
  assert (list_to_set (get_speaker <$> us) = (list_to_set labels : gset string)) as ->.
  { apply set_eq. intros x. rewrite !elem_of_list_to_set, list_elem_of_fmap, Hl.
    split; intros (u & H1 & H2); exists u; by split. }
  by apply size_list_to_set.
Qed.

(** C7, as stated, fails: for an empty list of utterances the report has
    no speaker-count line at all, where a count of 0 is expected. *)
Lemma C7_empty_list_writes_no_speaker_line :
  speakers_line (get_utterances (answer "completed" [])) = "" /\
  speakers_line (get_utterances (answer "completed" []))
    <> ("Total de falantes: 0" ++ Py.nl)%string /\
  content (answer "completed" []) =
    ("=== TRANSCRIÇÃO ASSEMBLYAI ===" ++ Py.nl ++ Py.nl ++
     "Idioma detectado: pt" ++ Py.nl ++
     "Confiança: 0.93" ++ Py.nl ++ Py.nl ++
     "=== SEGMENTOS COM FALANTES ===" ++ Py.nl ++ Py.nl)%string.
Proof. repeat split; try reflexivity. vm_compute. discriminate. Qed.

(** ** Running the monad *)

Ltac run_monad :=
  repeat (progress (
    unfold mbind, M_bind, mret, M_ret, set_progress, set_message, log_info,
      log_error, emit, update_job, get_fs, put_fs;
    cbn -[String.append alter insert delete lookup max_attempts needs_conversion
          synthesize content output_path Path.with_suffix Path.name Path.suffix
          Py.str])).

Lemma bind_run {A B} (m : M A) (k : A -> M B) (s : St) :
  (m ≫= k) s = k (m s).1 (m s).2.
Proof. unfold mbind, M_bind. by destruct (m s). Qed.

Lemma log_each_run (l : list Utterance) (s : St) :
  log_each l s =
  (tt, {| st_jobs := st_jobs s; st_fs := st_fs s;
          st_trace := st_trace s ++ (Log INFO ∘ debug_raw <$> l) |}).
Proof.
  revert s. induction l as [|u l IH]; intros s; simpl.
  - rewrite app_nil_r. by destruct s.
  - rewrite bind_run. simpl. rewrite IH. simpl. by rewrite <- app_assoc.
Qed.

(** [save_transcript] when the file can be written: the path is made of
    the clock and of the file name, the text of the payload alone. *)
Lemma save_transcript_written (w : World) (d : TranscriptData) (n : string) (s : St) :
  w_write_error w = None ->
  save_transcript w d n s =
  (Some (output_path w n),
   {| st_jobs := st_jobs s;
      st_fs := <[output_path w n := content d]> (st_fs s);
      st_trace := st_trace s
        ++ (Log INFO ∘ debug_raw <$> utterances_sorted (get_utterances d))
        ++ [WriteFile (output_path w n);
            Log INFO ("✅ Transcrição salva: " ++ output_path w n)%string] |}).
Proof.
  intros Hw. unfold save_transcript. rewrite bind_run, log_each_run, Hw.
  run_monad. by rewrite <- !app_assoc.
Qed.

Lemma save_transcript_result (w : World) (d : TranscriptData) (n : string) (s : St) p :
  (save_transcript w d n s).1 = Some p ->
  w_write_error w = None /\ p = output_path w n.
Proof.
  destruct (w_write_error w) as [e|] eqn:Hw.
  - unfold save_transcript. rewrite bind_run, log_each_run, Hw. done.
  - rewrite save_transcript_written by done. simpl. by intros [= <-].
Qed.

(** C8. The text of the report is a function of the payload: two calls on
    the same payload, at any two readings of the clock, for any file names
    and in any states, write the same text [content d]. Besides log lines,
    the call writes this one file and touches neither the jobs nor any
    other file. *)
Theorem C8_report_text_is_a_function_of_the_payload
    (d : TranscriptData) (w1 w2 : World) (n1 n2 p1 p2 : string) (s1 s2 : St) :
  (save_transcript w1 d n1 s1).1 = Some p1 ->
  (save_transcript w2 d n2 s2).1 = Some p2 ->
  let s1' := (save_transcript w1 d n1 s1).2 in
  let s2' := (save_transcript w2 d n2 s2).2 in
  st_fs s1' !! p1 = Some (content d) /\
  st_fs s2' !! p2 = Some (content d) /\
  st_jobs s1' = st_jobs s1 /\
  (forall p, p <> p1 -> st_fs s1' !! p = st_fs s1 !! p) /\
  exists (logs : list string) (l : string),
    st_trace s1' = (st_trace s1 ++ (Log INFO <$> logs) ++ [WriteFile p1; Log INFO l])%list.
Proof.
  intros [Hw1 ->]%save_transcript_result [Hw2 ->]%save_transcript_result.
  rewrite !save_transcript_written by done. simpl.
  rewrite !lookup_insert_eq. repeat split.
  - intros p Hp. by rewrite lookup_insert_ne.
  - eexists (debug_raw <$> _), _. by rewrite <- list_fmap_compose.
Qed.

Lemma C8_report_text_witness :
  st_fs (save_transcript good_world (answer "completed" [utt "A" 3 5 "hello"]) "a.ogg"
           (initial "j1" "uploads/a.ogg")).2
    !! "results/20250903_215613_a_transcript.txt"
  = Some (content (answer "completed" [utt "A" 3 5 "hello"])) /\
  st_fs (save_transcript later_world (answer "completed" [utt "A" 3 5 "hello"]) "b.mp3"
           (initial "j2" "uploads/b.mp3")).2
    !! "results/20260101_000000_b_transcript.txt"
  = Some (content (answer "completed" [utt "A" 3 5 "hello"])).
Proof.
  pose proof (C8_report_text_is_a_function_of_the_payload
    (answer "completed" [utt "A" 3 5 "hello"]) good_world later_world
    "a.ogg" "b.mp3" "results/20250903_215613_a_transcript.txt"
    "results/20260101_000000_b_transcript.txt"
    (initial "j1" "uploads/a.ogg") (initial "j2" "uploads/b.mp3")
    eq_refl eq_refl) as (H1 & H2 & _).
  exact (conj H1 H2).
Defined.

Example content_of_malformed_utterances :
  content (answer "completed"
        [utt "B" 9000 4000 "back";
         {| u_speaker := None; u_start := None; u_end := None; u_text := None |}]) =
  ("=== TRANSCRIÇÃO ASSEMBLYAI ===" ++ Py.nl ++ Py.nl ++
   "Idioma detectado: pt" ++ Py.nl ++
   "Confiança: 0.93" ++ Py.nl ++
   "Total de falantes: 2" ++ Py.nl ++ Py.nl ++
   "=== SEGMENTOS COM FALANTES ===" ++ Py.nl ++ Py.nl ++
   "[00:00:00 - 00:00:00] Speaker A: " ++ Py.nl ++ Py.nl ++
   "[02:30:00 - 01:06:40] Speaker B: back" ++ Py.nl ++ Py.nl)%string.
Proof. vm_compute. reflexivity. Qed.

(** ** The entry of a run *)

(** C9. A start request for a job that is not ['uploaded'] is answered
    400 "Job já processado"; no thread is started and the state (every
    field of every job, the files, the trace) is unchanged. *)
Theorem C9_start_is_rejected_unless_uploaded
    (w : World) (job_id : string) (job : Job) (s : St) :
  st_jobs s !! job_id = Some job ->
  status job <> uploaded ->
  start_transcription job_id s =
    ({| r_code := 400; r_body := [("error", "Job já processado")] |}, false, s) /\
  run w job_id s = ({| r_code := 400; r_body := [("error", "Job já processado")] |}, s) /\
  st_jobs (run w job_id s).2 !! job_id = Some job.
Proof.
  intros Hj Hs.
  assert (start_transcription job_id s =
    ({| r_code := 400; r_body := [("error", "Job já processado")] |}, false, s)) as E.
  { unfold start_transcription. rewrite Hj.
    by rewrite bool_decide_eq_false_2. }
  assert (run w job_id s =
    ({| r_code := 400; r_body := [("error", "Job já processado")] |}, s)) as E'.
  { unfold run. rewrite bind_run, E. reflexivity. }
  by rewrite E'.
Qed.

Lemma C9_start_is_rejected_witness :
  start_transcription "j1"
    {| st_jobs := {[ "j1" := with_status completed (new_job "uploads/a.ogg") ]};
       st_fs := ∅; st_trace := [] |} =
  ({| r_code := 400; r_body := [("error", "Job já processado")] |}, false,
   {| st_jobs := {[ "j1" := with_status completed (new_job "uploads/a.ogg") ]};
      st_fs := ∅; st_trace := [] |}).
Proof.
  refine (proj1 (C9_start_is_rejected_unless_uploaded good_world "j1"
    (with_status completed (new_job "uploads/a.ogg"))
    {| st_jobs := {[ "j1" := with_status completed (new_job "uploads/a.ogg") ]};
       st_fs := ∅; st_trace := [] |} _ _)).
  - reflexivity.
  - discriminate.
Defined.

(** ** Failures after the conversion *)

(** C3. A failed upload, or a remote error, after a successful conversion
    ends the job in ['error'] with the first error as its message, and the
    remaining steps are skipped; but the converted file is still on disk:
    only the success path unlinks it. *)
Theorem C3_failure_after_conversion_keeps_the_converted_file :
  let failed_upload := after_run (with_upload (Answer 500 "") good_world) "j1" "uploads/a.ogg" in
  let remote_error :=
    after_run (with_poll (fun _ => Answer 200 (answer "error" [])) good_world)
              "j1" "uploads/a.ogg" in
  let success := after_run good_world "j1" "uploads/a.ogg" in
  (status <$> st_jobs failed_upload !! "j1" = Some error /\
   message <$> st_jobs failed_upload !! "j1" = Some "Erro: Falha no upload" /\
   polls (st_trace failed_upload) = [] /\
   unlinks (st_trace failed_upload) = [] /\
   st_fs failed_upload !! "uploads/a.mp3" = Some "mp3") /\
  (status <$> st_jobs remote_error !! "j1" = Some error /\
   message <$> st_jobs remote_error !! "j1" = Some "Erro: Falha na transcrição" /\
   unlinks (st_trace remote_error) = [] /\
   st_fs remote_error !! "uploads/a.mp3" = Some "mp3") /\
  (status <$> st_jobs success !! "j1" = Some completed /\
   unlinks (st_trace success) = ["uploads/a.mp3"] /\
   st_fs success !! "uploads/a.mp3" = None).
Proof. vm_compute. repeat split. Qed.

(** C4. The encoder exits with code 1 and leaves a partial output file:
    [convert_to_mp3] returns [None], the loop of [transcribe_audio] drops
    that value and only tests that the file exists, so the partial file is
    uploaded and the job completes. Without a file at the output path the
    same exit code does end the run in "Falha na conversão". *)
Theorem C4_partial_output_of_a_failed_encoder_is_uploaded :
  let partial :=
    after_run (with_encoder (Exited [0%Q] 1 (Some "partial")) good_world)
              "j1" "uploads/a.ogg" in
  let nothing :=
    after_run (with_encoder (Exited [0%Q] 1 None) good_world) "j1" "uploads/a.ogg" in
  (errors (st_trace partial) = ["❌ Erro na conversão"] /\
   uploads (st_trace partial) = ["uploads/a.mp3"] /\
   status <$> st_jobs partial !! "j1" = Some completed) /\
  (errors (st_trace nothing) = ["❌ Erro na conversão"] /\
   uploads (st_trace nothing) = [] /\
   status <$> st_jobs nothing !! "j1" = Some error /\
   message <$> st_jobs nothing !! "j1" = Some "Erro: Falha na conversão").
Proof. vm_compute. repeat split. Qed.

(** ** Rules for [emits] *)

Lemma emits_ret {A} (P : list Event -> Prop) (a : A) : P [] -> emits P (mret a).
Proof. intros HP s. split; [done|]. exists []. by rewrite app_nil_r. Qed.

Lemma emits_bind {A B} (P1 P2 P : list Event -> Prop) (m : M A) (k : A -> M B) :
  emits P1 m -> (forall a, emits P2 (k a)) ->
  (forall t1 t2, P1 t1 -> P2 t2 -> P (t1 ++ t2)%list) ->
  emits P (m ≫= k).
Proof.
  intros Hm Hk HP s. rewrite bind_run.
  destruct (Hm s) as (Hd1 & t1 & Ht1 & HP1).
  destruct (Hk (m s).1 (m s).2) as (Hd2 & t2 & Ht2 & HP2).
  split; [congruence|].
  exists (t1 ++ t2)%list. rewrite Ht2, Ht1, <- app_assoc. auto.
Qed.

Lemma emits_weaken {A} (P Q : list Event -> Prop) (m : M A) :
  emits P m -> (forall t, P t -> Q t) -> emits Q m.
Proof.
  intros Hm HPQ s. destruct (Hm s) as (Hd & t & Ht & HP). split; [done|]. eauto.
Qed.

Lemma emits_emit (P : list Event -> Prop) (e : Event) : P [e] -> emits P (emit e).
Proof. intros HP s. split; [done|]. by exists [e]. Qed.

Lemma emits_update_job (P : list Event -> Prop) job_id f :
  P [] -> emits P (update_job job_id f).
Proof.
  intros HP s. simpl. split; [apply dom_alter_L|].
  exists []. by rewrite app_nil_r.
Qed.

Lemma emits_get_fs (P : list Event -> Prop) : P [] -> emits P get_fs.
Proof. intros HP s. split; [done|]. exists []. by rewrite app_nil_r. Qed.

Lemma emits_put_fs (P : list Event -> Prop) fs : P [] -> emits P (put_fs fs).
Proof. intros HP s. split; [done|]. exists []. by rewrite app_nil_r. Qed.

(** ** Every step keeps the jobs *)



















(** ** The polling loop *)

Lemma polls_app t1 t2 : polls (t1 ++ t2) = (polls t1 ++ polls t2)%list.
Proof. apply omap_app. Qed.

Lemma sleeps_app t1 t2 : sleeps (t1 ++ t2) = (sleeps t1 ++ sleeps t2)%list.
Proof. apply omap_app. Qed.

Lemma errors_app t1 t2 : errors (t1 ++ t2) = (errors t1 ++ errors t2)%list.
Proof. apply omap_app. Qed.

(** One turn of the loop, run to the point where the cases part. *)
Ltac poll_turn :=
  simpl poll_loop; rewrite ?bind_run; run_monad.

Ltac trace_here :=
  simpl; rewrite <- ?app_assoc; eexists; split; [reflexivity|].



(** The loop returns a payload only when a poll answered ["completed"],
    and the payload is that answer. *)
Lemma poll_loop_some w job id remaining attempts last s d :
  (poll_loop w job id remaining attempts last s).1 = Some d ->
  exists i, (attempts <= i < attempts + remaining)%nat /\
            w_poll w i = Answer 200 d /\ t_status d = "completed".
Proof.
  revert attempts last s. induction remaining as [|r IH]; intros a l s.
  - poll_turn. done.
  - poll_turn. destruct (w_poll w a) as [e|c d'] eqn:Hd; run_monad; [done|].
    destruct (c =? 200) eqn:Hc; run_monad; [|done].
    apply Z.eqb_eq in Hc as ->.
    destruct (synthesize _ _) as [p m]. run_monad.
    set (changed := (_ || _)%bool).
    destruct (t_status d' =? "completed")%string eqn:Hs.
    { apply String.eqb_eq in Hs.
      destruct changed; run_monad; intros [= <-]; exists a; (split; [lia | done]). }
    destruct (t_status d' =? "error")%string.
    { destruct changed; run_monad; done. }
    destruct changed; run_monad; intros (i & Hi & Hw)%IH; exists i; (split; [lia | done]).
Qed.



Lemma transcribe_audio_api_some w url job s d :
  (transcribe_audio_api w url job s).1 = Some d ->
  exists i, (i < max_attempts)%nat /\
            w_poll w i = Answer 200 d /\ t_status d = "completed".
Proof.
  unfold transcribe_audio_api. rewrite ?bind_run. run_monad.
  destruct (w_submit w) as [e|c id]; run_monad; [done|].
  destruct (c =? 200); run_monad; [|done].
  intros (i & Hi & Hw)%poll_loop_some. exists i. split; [lia | done].
Qed.

(** ** What a successful run rests on *)

(** [transcribe_audio] answers success only with the payload of a poll
    that reported ["completed"]; the language and the speaker count of the
    result are those of this payload. *)
Lemma upload_and_transcribe_success w file_path process_file job s tf lang n msg :
  (upload_and_transcribe w file_path process_file job s).1 = Success tf lang n msg ->
  exists i d, (i < max_attempts)%nat /\ w_poll w i = Answer 200 d /\
              t_status d = "completed" /\
              n = speakers_count d /\ lang = t_language_code d.
Proof.
  unfold upload_and_transcribe. rewrite ?bind_run. run_monad.
  match goal with |- context [upload_file ?a ?b ?c ?s'] =>
    destruct (upload_file a b c s') as [[[|c0 url]|] s1] end; run_monad; try done.
  rewrite ?bind_run. run_monad.
  match goal with |- context [transcribe_audio_api ?a ?b ?c ?s'] =>
    destruct (transcribe_audio_api a b c s') as [[d|] s2] eqn:Hapi end;
    run_monad; try done.
  apply (f_equal fst) in Hapi. apply transcribe_audio_api_some in Hapi as (i & Hi & Hw & Hc).
  rewrite ?bind_run. run_monad.
  match goal with |- context [save_transcript ?a ?b ?c ?s'] =>
    destruct (save_transcript a b c s') as [[rf|] s3] end; run_monad; try done.
  destruct (needs_conversion file_path); rewrite ?bind_run; run_monad.
  1: destruct (unlink _ _ _) as [? s4]; run_monad.
  all: intros [= <- <- <- <-]; by exists i, d.
Qed.

Lemma transcribe_audio_success w file_path job s tf lang n msg :
  (transcribe_audio w file_path job s).1 = Success tf lang n msg ->
  exists i d, (i < max_attempts)%nat /\ w_poll w i = Answer 200 d /\
              t_status d = "completed" /\
              n = speakers_count d /\ lang = t_language_code d.
Proof.
  unfold transcribe_audio.
  destruct (needs_conversion file_path); [|apply upload_and_transcribe_success].
  rewrite ?bind_run. run_monad.
  match goal with |- context [convert_to_mp3 ?a ?b ?c ?s'] =>
    destruct (convert_to_mp3 a b c s') as [r s1] end; run_monad.
  destruct (st_fs s1 !! _); [apply upload_and_transcribe_success | done].
Qed.


(** C7 (amended). For a non-empty list of utterances, the speaker-count
    line of the report and the count of the success result are both the
    number of distinct speaker labels (an absent label counts as "A"); for
    an empty list the success result counts 0 and the report has no
    speaker-count line. The success result of [transcribe_audio] carries
    the count of the payload that the provider reported as completed. *)
Theorem C7_speaker_count_is_the_number_of_distinct_labels
    (d : TranscriptData) (labels : list string) :
  NoDup labels ->
  (forall x, x ∈ labels <-> exists u, u ∈ get_utterances d /\ get_speaker u = x) ->
  speakers_count d = length labels /\
  (get_utterances d <> [] ->
     speakers_line (get_utterances d) =
       ("Total de falantes: " ++ Py.str (Z.of_nat (length labels)) ++ Py.nl)%string) /\
  (get_utterances d = [] ->
     speakers_line (get_utterances d) = "" /\ speakers_count d = O) /\
  (forall w file_path job s tf lang n msg,
     (transcribe_audio w file_path job s).1 = Success tf lang n msg ->
     (forall i d', (i < 60)%nat -> w_poll w i = Answer 200 d' ->
                   t_status d' = "completed" -> d' = d) ->
     n = length labels).
Proof.
  intros Hnd Hl.
  assert (speakers_count d = length labels) as Hsc.
  { unfold speakers_count.
    pose proof (count_speakers_enumeration _ _ Hnd Hl) as Hc.
    by destruct (get_utterances d). }
  pose proof (count_speakers_enumeration _ _ Hnd Hl) as Hc.
  split; [exact Hsc|]. split; [|split].
  - unfold speakers_line. destruct (get_utterances d) as [|u us]; [done|].
    intros _. by rewrite Hc.
  - intros E. unfold speakers_line, speakers_count. by rewrite E.
  - intros w file_path job s tf lang n msg
      (i & d' & Hi & Hw & Hcomp & -> & _)%transcribe_audio_success Hd.
    by rewrite (Hd i d' Hi Hw Hcomp).
Qed.

Lemma C7_speaker_count_witness :
  speakers_count (answer "completed" [utt "B" 62 65 "there"; utt "A" 3 5 "hello";
                                      utt "B" 70 71 "again"]) = 2%nat.
Proof.
  refine (proj1 (C7_speaker_count_is_the_number_of_distinct_labels
           (answer "completed" [utt "B" 62 65 "there"; utt "A" 3 5 "hello";
                                utt "B" 70 71 "again"]) ["A"; "B"] _ _)).
  - apply NoDup_cons. split; [|apply NoDup_singleton].
    intros [H|H]%elem_of_cons; [discriminate | by apply elem_of_nil in H].
  - intros x. simpl. split.
    + intros Hx. apply elem_of_cons in Hx as [->|Hx].
      { exists (utt "A" 3 5 "hello"). split; [repeat constructor | done]. }
      apply elem_of_cons in Hx as [->|Hx]; [|by apply elem_of_nil in Hx].
      exists (utt "B" 62 65 "there"). split; [repeat constructor | done].
    + intros (u & Hu & <-).
      repeat (apply elem_of_cons in Hu as [->|Hu]); try (simpl; repeat constructor).
      by apply elem_of_nil in Hu.
Defined.

(** An accepted request: the thread calls [transcribe_audio] in the state
    [entered] and finishes on its result. *)
Lemma run_unfold w job_id j s :
  st_jobs s !! job_id = Some j -> status j = uploaded ->
  (run w job_id s).2 =
  (finish w job_id (transcribe_audio w (filepath j) job_id (entered job_id s)).1
     (transcribe_audio w (filepath j) job_id (entered job_id s)).2).2.
Proof.
  intros Hj Hu.
  unfold run, start_transcription, process_transcription, entered, finish.
  run_monad. rewrite Hj, Hu, bool_decide_eq_true_2 by done. run_monad.
  rewrite !lookup_alter_eq, Hj. run_monad.
  rewrite <- !app_assoc. simpl.
  destruct (transcribe_audio _ _ _ _) as [[tf lang n msg|e] s']; reflexivity.
Qed.


Example timeout_after_60_polls :
  let tr := st_trace (run (with_poll always_processing good_world) "j1"
                        (initial "j1" "uploads/a.mp3")).2 in
  polls tr = replicate 60 "tid" /\
  errors tr = [timeout_message] /\
  last (progress_writes tr) = Some 90.
Proof. vm_compute. repeat split. Qed.

(** ** Truncation of clock readings *)

Lemma int_floor (q : Q) : (0 <= q)%Q -> Py.int q = Qfloor q.
Proof.
  destruct q as [n d]. unfold Qle, Py.int, Qfloor. simpl. intros H.
  apply Z.quot_div_nonneg; lia.
Qed.

Lemma int_nonneg (q : Q) : (0 <= q)%Q -> 0 <= Py.int q.
Proof.
  intros H. rewrite int_floor by done.
  change 0 with (Qfloor 0). by apply Qfloor_resp_le.
Qed.

Lemma int_mono (q1 q2 : Q) : (0 <= q1)%Q -> (q1 <= q2)%Q -> Py.int q1 <= Py.int q2.
Proof.
  intros H0 H. rewrite !int_floor; [by apply Qfloor_resp_le | | done].
  by eapply Qle_trans.
Qed.

Lemma scaled_mono (k q1 q2 : Q) :
  (0 <= k)%Q -> (0 <= q1)%Q -> (q1 <= q2)%Q ->
  0 <= Py.int (q1 * k) <= Py.int (q2 * k).
Proof.
  intros Hk H0 H.
  assert (0 <= q1 * k)%Q as H1 by (by apply Qmult_le_0_compat).
  split; [by apply int_nonneg|].
  apply int_mono; [done|]. by apply Qmult_le_compat_r.
Qed.

Lemma poll_value_bounds status e : (0 <= e)%Q -> 55 <= poll_value status e <= 90.
Proof.
  intros He. unfold poll_value, synthesize.
  pose proof (scaled_mono (inject_Z 2) e e) as H2.
  pose proof (scaled_mono (inject_Z 3) e e) as H3.
  destruct (String.eqb status "queued"); [|destruct (String.eqb status "processing")];
    simpl; [specialize (H2 ltac:(done) He ltac:(apply Qle_refl))
           |specialize (H3 ltac:(done) He ltac:(apply Qle_refl))|]; lia.
Qed.

Lemma poll_value_mono s1 s2 e1 e2 :
  (rank s1 <= rank s2)%nat -> (0 <= e1)%Q -> (e1 <= e2)%Q ->
  poll_value s1 e1 <= poll_value s2 e2.
Proof.
  intros Hr H0 He. unfold poll_value, synthesize, rank in *.
  pose proof (scaled_mono (inject_Z 2) e1 e2 ltac:(done) H0 He) as H2.
  pose proof (scaled_mono (inject_Z 3) e1 e2 ltac:(done) H0 He) as H3.
  destruct (String.eqb s1 "queued"), (String.eqb s2 "queued"),
    (String.eqb s1 "processing"), (String.eqb s2 "processing"); simpl in *; lia.
Qed.

(** ** Rules for [within] and [phase] *)

Lemma within_nil lo hi : lo <= hi -> within lo hi [].
Proof. intros H. split; [done|]. split; constructor. Qed.

Lemma within_one lo hi p : lo <= p <= hi -> within lo hi [p].
Proof.
  intros H. split; [lia|]. split.
  - apply Forall_cons. split; [done | apply Forall_nil_2].
  - repeat constructor.
Qed.

Lemma within_app lo mid hi w1 w2 :
  within lo mid w1 -> within mid hi w2 -> within lo hi (w1 ++ w2).
Proof.
  intros (H1 & F1 & S1) (H2 & F2 & S2). split; [lia|]. split.
  - apply Forall_app. split; (eapply Forall_impl; [eassumption|]); simpl; intros; lia.
  - apply StronglySorted_app. repeat split; try done.
    intros x1 x2 Hx1 Hx2. rewrite Forall_forall in F1, F2.
    specialize (F1 x1 Hx1). specialize (F2 x2 Hx2). simpl in *. lia.
Qed.

Lemma progress_writes_app t1 t2 :
  progress_writes (t1 ++ t2) = (progress_writes t1 ++ progress_writes t2)%list.
Proof. apply omap_app. Qed.

Lemma phase_ret {A} lo hi (a : A) : lo <= hi -> phase lo hi (mret a).
Proof. intros H. apply emits_ret. by apply within_nil. Qed.

Lemma phase_bind {A B} lo mid hi (m : M A) (k : A -> M B) :
  phase lo mid m -> (forall a, phase mid hi (k a)) -> phase lo hi (m ≫= k).
Proof.
  intros Hm Hk. eapply emits_bind; [exact Hm | exact Hk |].
  intros t1 t2 H1 H2. rewrite progress_writes_app.
  exact (within_app lo mid hi _ _ H1 H2).
Qed.

Lemma phase_weaken {A} lo hi lo' hi' (m : M A) :
  phase lo hi m -> lo' <= lo -> hi <= hi' -> phase lo' hi' m.
Proof.
  intros Hm Hlo Hhi. eapply emits_weaken; [exact Hm|].
  intros t (H & F & S). split; [lia|]. split; [|done].
  eapply Forall_impl; [exact F|]. simpl. intros; lia.
Qed.

Lemma phase_quiet {A} lo (m : M A) : quiet m -> phase lo lo m.
Proof.
  intros Hm. eapply emits_weaken; [exact Hm|].
  intros t ->. by apply within_nil.
Qed.

Lemma phase_set_progress lo job p : lo <= p -> phase lo p (set_progress job p).
Proof.
  intros H. unfold set_progress.
  apply (phase_bind lo lo p).
  - apply emits_update_job. by apply within_nil.
  - intros _. apply emits_emit. apply within_one. lia.
Qed.

(** ** Steps that write no progress *)

Lemma quiet_ret {A} (a : A) : quiet (mret a).
Proof. by apply emits_ret. Qed.

Lemma quiet_bind {A B} (m : M A) (k : A -> M B) :
  quiet m -> (forall a, quiet (k a)) -> quiet (m ≫= k).
Proof.
  intros Hm Hk. eapply emits_bind; [exact Hm | exact Hk |].
  intros t1 t2 H1 H2. simpl in *. by rewrite progress_writes_app, H1, H2.
Qed.

Lemma quiet_update_job job_id f : quiet (update_job job_id f).
Proof. by apply emits_update_job. Qed.

Lemma quiet_get_fs : quiet get_fs.
Proof. by apply emits_get_fs. Qed.

Lemma quiet_put_fs fs : quiet (put_fs fs).
Proof. by apply emits_put_fs. Qed.

Lemma quiet_log lvl msg : quiet (emit (Log lvl msg)).
Proof. by apply emits_emit. Qed.

Ltac quiet_step :=
  match goal with
  | |- quiet (_ ≫= _) => apply quiet_bind; [|intros]
  | |- quiet (match ?x with _ => _ end) => destruct x
  | |- quiet (set_message _ _) => unfold set_message
  | |- quiet (log_info _) => unfold log_info
  | |- quiet (log_error _) => unfold log_error
  | |- quiet (mret _) => apply quiet_ret
  | |- quiet (emit _) => by apply emits_emit
  | |- quiet (update_job _ _) => apply quiet_update_job
  | |- quiet get_fs => apply quiet_get_fs
  | |- quiet (put_fs _) => apply quiet_put_fs
  | H : _ |- quiet _ => apply H
  end.

Ltac quiet_auto := repeat quiet_step.

Lemma quiet_log_each l : quiet (log_each l).
Proof. induction l; simpl; quiet_auto. Qed.

Lemma quiet_save_transcript w d n : quiet (save_transcript w d n).
Proof. pose proof quiet_log_each. unfold save_transcript. quiet_auto. Qed.

Lemma quiet_unlink w path : quiet (unlink w path).
Proof. unfold unlink. quiet_auto. Qed.

(** One step of a sequence: a write of [p] moves the lower bound to [p],
    a quiet step leaves it. *)
Ltac phase_step :=
  match goal with
  | |- phase ?lo ?hi (set_progress _ ?p ≫= _) =>
      apply (phase_bind lo p hi); [apply phase_set_progress; lia | intros]
  | |- phase ?lo ?hi (mret _) => apply phase_ret; lia
  | |- phase ?lo ?hi (match ?x with _ => _ end) => destruct x
  | |- phase ?lo ?hi (_ ≫= _) =>
      apply (phase_bind lo lo hi); [apply phase_quiet; solve [quiet_auto] | intros]
  | |- phase ?lo ?hi _ =>
      apply (phase_weaken lo lo); [apply phase_quiet; solve [quiet_auto] | lia | lia]
  end.

Ltac phase_auto := repeat phase_step.

Lemma phase_upload_file w file_path job lo :
  lo <= 50 -> phase lo 50 (upload_file w file_path job).
Proof. intros H. unfold upload_file. phase_auto. Qed.

(** ** The phases of a run *)

Lemma phase_poll_loop w job id remaining attempts last lo :
  clock_forward w -> statuses_forward w ->
  lo <= 90 ->
  (forall j d, (attempts <= j)%nat -> w_poll w j = Answer 200 d ->
               lo <= poll_value (t_status d) (w_poll_elapsed w j)) ->
  phase lo 95 (poll_loop w job id remaining attempts last).
Proof.
  intros (Hc0 & Hc & _) Hs.
  revert attempts last lo. induction remaining as [|r IH]; intros a l lo Hlo Hv; simpl.
  { phase_auto. }
  phase_step. destruct (w_poll w a) as [e|c d] eqn:Hd; [phase_auto|].
  destruct (c =? 200) eqn:Hc200; simpl; [|phase_auto].
  apply Z.eqb_eq in Hc200 as ->.
  pose proof (Hv a d ltac:(lia) Hd) as Hva.
  pose proof (poll_value_bounds (t_status d) (w_poll_elapsed w a) (Hc0 a)) as Hb.
  unfold poll_value in Hva, Hb.
  destruct (synthesize (t_status d) (w_poll_elapsed w a)) as [p m] eqn:Hp.
  simpl in Hva, Hb.
  phase_step. phase_step. phase_step.
  destruct (String.eqb (t_status d) "completed"); [phase_auto|].
  destruct (String.eqb (t_status d) "error"); [phase_auto|].
  phase_step. apply IH; [lia|].
  intros j d' Hj Hd'.
  transitivity (poll_value (t_status d) (w_poll_elapsed w a)).
  { unfold poll_value. rewrite Hp. simpl. lia. }
  apply poll_value_mono; [|apply Hc0 | apply Hc; lia].
  apply (Hs a j d d'); [lia | done | done].
Qed.

Lemma phase_transcribe_audio_api w url job lo :
  clock_forward w -> statuses_forward w ->
  lo <= 55 -> phase lo 95 (transcribe_audio_api w url job).
Proof.
  intros Hc Hs Hlo. unfold transcribe_audio_api.
  phase_step. phase_step. phase_step. phase_step.
  destruct (w_submit w) as [e|c id]; [phase_auto|].
  destruct (negb (c =? 200)); [phase_auto|].
  phase_step. apply phase_poll_loop; [done | done | lia |].
  intros j d _ _. apply poll_value_bounds. apply Hc.
Qed.

Lemma conversion_value_bounds e : (0 <= e)%Q -> 10 <= conversion_value e <= 37.
Proof.
  intros He. unfold conversion_value.
  pose proof (scaled_mono (inject_Z 10) e e ltac:(done) He ltac:(apply Qle_refl)) as H10.
  set (p := Z.min (Py.int (e * inject_Z 10)) 90) in *.
  assert (0 <= p <= 90) as Hp by lia.
  assert (0 <= inject_Z p)%Q as Hp0 by (rewrite <- (Zle_Qle 0); lia).
  assert (inject_Z p <= inject_Z 90)%Q as Hp90 by (rewrite <- Zle_Qle; lia).
  pose proof (scaled_mono (3 # 10) (inject_Z p) (inject_Z 90) ltac:(done) Hp0 Hp90) as H.
  change (Py.int (inject_Z 90 * (3 # 10))) with 27 in H. lia.
Qed.

Lemma conversion_value_mono e1 e2 :
  (0 <= e1)%Q -> (e1 <= e2)%Q -> conversion_value e1 <= conversion_value e2.
Proof.
  intros H0 He. unfold conversion_value.
  pose proof (scaled_mono (inject_Z 10) e1 e2 ltac:(done) H0 He) as H10.
  set (p1 := Z.min (Py.int (e1 * inject_Z 10)) 90) in *.
  set (p2 := Z.min (Py.int (e2 * inject_Z 10)) 90) in *.
  assert (0 <= p1 <= p2) as Hp by lia.
  assert (0 <= inject_Z p1)%Q as Hp0 by (rewrite <- (Zle_Qle 0); lia).
  assert (inject_Z p1 <= inject_Z p2)%Q as Hp12 by (rewrite <- Zle_Qle; lia).
  pose proof (scaled_mono (3 # 10) (inject_Z p1) (inject_Z p2) ltac:(done) Hp0 Hp12). lia.
Qed.

Lemma phase_conversion_progress job p lo :
  lo <= 10 + Py.int (inject_Z p * (3 # 10)) ->
  phase lo (10 + Py.int (inject_Z p * (3 # 10))) (conversion_progress job p).
Proof.
  intros H. unfold conversion_progress.
  eapply phase_bind; [apply phase_set_progress; exact H|]. intros _.
  apply phase_quiet. quiet_auto.
Qed.

Lemma phase_convert_loop job elapsed lo :
  Forall (Qle 0) elapsed -> StronglySorted Qle elapsed ->
  lo <= 37 ->
  Forall (fun e => lo <= conversion_value e) elapsed ->
  phase lo 37 (convert_loop (conversion_progress job) elapsed).
Proof.
  revert lo. induction elapsed as [|e rest IH]; intros lo H0 Hs Hlo Hv; simpl.
  { phase_auto. }
  apply Forall_cons in H0 as [He H0]. apply Forall_cons in Hv as [Hve Hv].
  apply StronglySorted_inv in Hs as [Hs Hle].
  pose proof (conversion_value_bounds e He) as Hb.
  apply (phase_bind lo (conversion_value e) 37).
  { apply phase_conversion_progress. exact Hve. }
  intros _. phase_step. apply IH; [done | done | lia |].
  rewrite Forall_forall in Hle |- *. intros e' He'.
  apply conversion_value_mono; [done | by apply Hle].
Qed.

Lemma phase_convert_to_mp3 w input_file job lo :
  clock_forward w -> lo <= 10 ->
  phase lo 40 (convert_to_mp3 w input_file (conversion_progress job)).
Proof.
  intros (_ & _ & Hc) Hlo. unfold convert_to_mp3.
  phase_step. phase_step.
  destruct (w_encoder w) as [e|elapsed rc out]; [phase_auto|].
  destruct Hc as [H0 Hs].
  apply (phase_bind lo 37 40).
  { apply phase_convert_loop; [done | done | lia |].
    eapply Forall_impl; [exact H0|]. intros e He.
    pose proof (conversion_value_bounds e He). simpl. lia. }
  intros _. phase_step. phase_step.
  destruct (rc =? 0); [|phase_auto].
  phase_step.
  apply (phase_bind 37 40 40); [|intros; phase_auto].
  apply (phase_conversion_progress job 100 37). by vm_compute.
Qed.

Lemma phase_upload_and_transcribe w file_path process_file job lo :
  clock_forward w -> statuses_forward w -> lo <= 40 ->
  phase lo 100 (upload_and_transcribe w file_path process_file job).
Proof.
  intros Hc Hs Hlo. unfold upload_and_transcribe.
  phase_step. phase_step.
  apply (phase_bind 40 50 100); [apply phase_upload_file; lia|].
  intros [[|c url]|]; [phase_auto | | phase_auto].
  phase_step. phase_step.
  apply (phase_bind 50 95 100); [apply phase_transcribe_audio_api; done || lia|].
  intros [d|]; [|phase_auto].
  phase_step. phase_step.
  apply (phase_bind 95 95 100); [apply phase_quiet, quiet_save_transcript|].
  intros [rf|]; [|phase_auto].
  apply (phase_bind 95 95 100).
  { apply phase_quiet. destruct (needs_conversion file_path);
      [apply quiet_unlink | apply quiet_ret]. }
  intros _. phase_auto.
Qed.

Lemma phase_transcribe_audio w file_path job lo :
  clock_forward w -> statuses_forward w -> lo <= 10 ->
  phase lo 100 (transcribe_audio w file_path job).
Proof.
  intros Hc Hs Hlo. unfold transcribe_audio.
  destruct (needs_conversion file_path);
    [|apply phase_upload_and_transcribe; done || lia].
  phase_step.
  apply (phase_bind lo 40 100); [by apply phase_convert_to_mp3|].
  intros _. phase_step.
  destruct (_ !! _); [|phase_auto].
  apply phase_upload_and_transcribe; done || lia.
Qed.

Lemma phase_run w job_id :
  clock_forward w -> statuses_forward w -> phase 0 100 (run w job_id).
Proof.
  intros Hc Hs. unfold run.
  apply (phase_bind 0 0 100).
  { intros s. unfold start_transcription.
    destruct (st_jobs s !! job_id) as [j|]; [|by apply (phase_ret 0 0)].
    destruct (negb _); [by apply (phase_ret 0 0)|].
    revert s. change (phase 0 0 
      (update_job job_id (with_status processing) ;;
         set_progress job_id 0 ;;
         set_message job_id "Iniciando transcrição..." ;;
         mret ({| r_code := 200;
                  r_body := [("job_id", job_id); ("status", "processing");
                             ("message", "Transcrição iniciada")] |}, true))).
    phase_auto. }
  intros [r b]. simpl.
  apply (phase_bind 0 100 100); [|intros; phase_auto].
  destruct b; [|phase_auto].
  intros s. unfold process_transcription.
  destruct (st_jobs s !! job_id) as [j|]; [|by apply (phase_ret 0 100)].
  revert s. 
  change (phase 0 100
      (set_progress job_id 10 ;;
       set_message job_id "Convertendo arquivo..." ;;
       result ← transcribe_audio w (filepath j) job_id ;
       finish w job_id result)).
  phase_step. phase_step.
  apply (phase_bind 10 100 100); [by apply phase_transcribe_audio|].
  intros [tf lang n msg|e]; unfold finish; phase_auto.
Qed.

Lemma good_world_clock_forward : clock_forward good_world.
Proof.
  split; [|split].
  - intros i. simpl. rewrite <- (Zle_Qle 0). lia.
  - intros i j Hij. simpl. rewrite <- Zle_Qle. lia.
  - simpl. split.
    + repeat constructor; by vm_compute.
    + repeat constructor; by vm_compute.
Qed.

Lemma good_world_statuses_forward : statuses_forward good_world.
Proof.
  intros i j d d' Hij Hi Hj. simpl in *.
  destruct i as [|[|i]], j as [|[|j]]; simplify_eq; try lia; unfold rank; simpl; lia.
Qed.

(** C2 (amended). When the readings of the clock are non-negative and do
    not go back, and the status reported by the provider does not move
    back (queued, then processing, then any other status), the values
    written to [progress] during a run, from the accepted request to the
    end of the thread, never decrease and stay between 0 and 100. *)
Theorem C2_progress_never_decreases_in_a_forward_world
    (w : World) (job_id : string) (s : St) :
  clock_forward w -> statuses_forward w ->
  exists tr,
    st_trace (run w job_id s).2 = (st_trace s ++ tr)%list /\
    StronglySorted Z.le (progress_writes tr) /\
    Forall (fun v => 0 <= v <= 100) (progress_writes tr).
Proof.
  intros Hc Hs. destruct (phase_run w job_id Hc Hs s) as (_ & tr & Ht & _ & HF & HS).
  by exists tr.
Qed.

Lemma C2_progress_witness :
  exists tr,
    st_trace (run good_world "j1" (initial "j1" "uploads/a.ogg")).2 =
      (st_trace (initial "j1" "uploads/a.ogg") ++ tr)%list /\
    StronglySorted Z.le (progress_writes tr) /\
    Forall (fun v => 0 <= v <= 100) (progress_writes tr).
Proof.
  apply (C2_progress_never_decreases_in_a_forward_world good_world "j1"
           (initial "j1" "uploads/a.ogg")).
  - exact good_world_clock_forward.
  - exact good_world_statuses_forward.
Defined.

(** C2, as stated, fails: the provider answers processing, processing,
    queued, completed at 0, 5, 10 and 15 seconds, and [progress] goes from
    80 back to 65. *)
Lemma C2_progress_regresses_when_status_moves_back :
  progress_writes (st_trace (after_run (with_poll backward_poll good_world)
                                       "j1" "uploads/a.mp3")) =
    [0; 10; 40; 50; 50; 55; 65; 80; 65; 90; 95; 95; 100; 100] /\
  ~ StronglySorted Z.le
      (progress_writes (st_trace (after_run (with_poll backward_poll good_world)
                                            "j1" "uploads/a.mp3"))).
Proof.
  assert (progress_writes (st_trace (after_run (with_poll backward_poll good_world)
                                       "j1" "uploads/a.mp3")) =
    [0; 10; 40; 50; 50; 55; 65; 80; 65; 90; 95; 95; 100; 100]) as E
    by (vm_compute; reflexivity).
  split; [exact E|]. rewrite E. intros H.
  do 7 (apply StronglySorted_inv in H as [H _]).
  apply StronglySorted_inv in H as [_ H].
  apply Forall_cons in H as [H _]. lia.
Qed.

(** * Further properties *)
(** ** Strings *)

Lemma append_cons (x : Ascii.ascii) (a b : string) :
  (String x a ++ b)%string = String x (a ++ b).
Proof. reflexivity. Qed.

Lemma append_nil_l (b : string) : ("" ++ b)%string = b.
Proof. reflexivity. Qed.

Lemma append_nil_r (a : string) : (a ++ "")%string = a.
Proof.
  induction a as [|x a IH]; [done|]. rewrite append_cons. by rewrite IH.
Qed.

Lemma append_assoc (a b c : string) : ((a ++ b) ++ c = a ++ (b ++ c))%string.
Proof.
  induction a as [|x a IH]; [done|]. rewrite !append_cons. by rewrite IH.
Qed.

Lemma append_cancel_l (a b c : string) : (a ++ b = a ++ c)%string -> b = c.
Proof.
  induction a as [|x a IH]; [done|]. rewrite !append_cons. intros [= H]. by apply IH.
Qed.

Lemma length_append (a b : string) :
  String.length (a ++ b) = (String.length a + String.length b)%nat.
Proof.
  induction a as [|x a IH]; [done|]. rewrite append_cons. simpl. by rewrite IH.
Qed.

Lemma absent_append_cons c b r : ~ absent c (b ++ String c r).
Proof.
  induction b as [|y b IH]; rewrite ?append_cons, ?append_nil_l; simpl.
  - by intros [H _].
  - intros [_ H]. by apply IH.
Qed.

Lemma rsplit_None c s : Path.rsplit c s = None <-> absent c s.
Proof.
  induction s as [|a s IH]; simpl; [done|].
  destruct (Path.rsplit c s) as [[b r]|].
  - split; [done|]. intros [_ H]. by apply IH in H.
  - destruct (Ascii.eqb_spec a c) as [->|Hne]; split; try done.
    + by intros [H _].
    + intros _. split; [done|]. by apply IH.
Qed.

Lemma rsplit_Some c s b r :
  Path.rsplit c s = Some (b, r) <-> s = (b ++ String c r)%string /\ absent c r.
Proof.
  revert b. induction s as [|a s IH]; intros b; simpl.
  - split; [done|]. intros [H _]. by destruct b.
  - destruct (Path.rsplit c s) as [[b' r']|] eqn:E.
    + split.
      * intros [= <- <-]. destruct (proj1 (IH b') eq_refl) as [-> H]. done.
      * intros [H Hr]. destruct b as [|x b]; rewrite ?append_cons, ?append_nil_l in H.
        { injection H as -> ->. apply rsplit_None in Hr. congruence. }
        injection H as -> ->.
        assert (Some (b', r') = Some (b, r)) as [= -> ->] by (by apply IH).
        done.
    + apply rsplit_None in E.
      destruct (Ascii.eqb_spec a c) as [->|Hne]; split.
      * by intros [= <- <-].
      * intros [H Hr]. destruct b as [|x b]; rewrite ?append_cons, ?append_nil_l in H;
          [by injection H as ->|].
        injection H as -> ->. destruct (absent_append_cons _ _ _ E).
      * done.
      * intros [H Hr]. destruct b as [|x b]; rewrite ?append_cons, ?append_nil_l in H;
          [by injection H|].
        injection H as -> ->. destruct (absent_append_cons _ _ _ E).
Qed.

(** ** Paths *)

Lemma dir_name p : (Path.dir p ++ Path.name p)%string = p.
Proof.
  unfold Path.dir, Path.name.
  destruct (Path.rsplit Path.slash p) as [[d n]|] eqn:E; [|done].
  apply rsplit_Some in E as [-> _]. by rewrite append_assoc.
Qed.

Lemma stem_suffix p : (Path.stem p ++ Path.suffix p)%string = Path.name p.
Proof.
  unfold Path.stem, Path.suffix, Path.split_ext.
  destruct (Path.rsplit Path.dot (Path.name p)) as [[b e]|] eqn:E; simpl.
  - apply rsplit_Some in E as [E _].
    destruct (_ || _); simpl; [apply append_nil_r|].
    by rewrite E.
  - apply append_nil_r.
Qed.

(** A path is its directory, its stem and its suffix. *)
Lemma with_suffix_suffix p : Path.with_suffix p (Path.suffix p) = p.
Proof.
  unfold Path.with_suffix. by rewrite stem_suffix, dir_name.
Qed.

Lemma with_suffix_eq_inv p sfx : Path.with_suffix p sfx = p -> sfx = Path.suffix p.
Proof.
  intros H. rewrite <- (with_suffix_suffix p) in H at 2.
  unfold Path.with_suffix in H. by do 2 apply append_cancel_l in H.
Qed.

Lemma needs_conversion_other_path p :
  needs_conversion p = true -> Path.with_suffix p ".mp3" <> p.
Proof.
  intros Hn H. apply with_suffix_eq_inv in H. unfold needs_conversion in Hn.
  rewrite <- H in Hn. done.
Qed.

(** The suffix is empty, or a dot followed by a non-empty extension
    without a dot, after a non-empty stem without a separator. *)
Lemma suffix_shape p :
  Path.suffix p = "" \/
  exists e, Path.suffix p = String Path.dot e /\ e <> "" /\ absent Path.dot e /\
            Path.stem p <> "".
Proof.
  unfold Path.stem, Path.suffix, Path.split_ext.
  destruct (Path.rsplit Path.dot (Path.name p)) as [[b e]|] eqn:E; simpl; [|by left].
  apply rsplit_Some in E as [E He].
  destruct b as [|x b]; simpl; [by left|].
  destruct e as [|y e]; simpl; [by left|].
  right. exists (String y e). simpl in He. destruct He as [Hy He].
  repeat split; done.
Qed.

Lemma absent_append c a b : absent c (a ++ b) <-> absent c a /\ absent c b.
Proof.
  induction a as [|x a IH]; rewrite ?append_cons, ?append_nil_l; simpl; [tauto|].
  rewrite IH. tauto.
Qed.

Lemma name_absent_slash p : absent Path.slash (Path.name p).
Proof.
  unfold Path.name.
  destruct (Path.rsplit Path.slash p) as [[d n]|] eqn:E.
  - by apply rsplit_Some in E as [_ H].
  - by apply rsplit_None.
Qed.

Lemma name_dir_append d n :
  absent Path.slash n -> (d = "" \/ exists d', d = (d' ++ "/")%string) ->
  Path.name (d ++ n) = n /\ Path.dir (d ++ n) = d.
Proof.
  intros Hn [->|[d' ->]]; unfold Path.name, Path.dir.
  - rewrite append_nil_l. apply rsplit_None in Hn. by rewrite Hn.
  - rewrite append_assoc. change ("/" ++ n)%string with (String Path.slash n).
    rewrite (proj2 (rsplit_Some Path.slash _ d' n) (conj eq_refl Hn)). done.
Qed.

Lemma dir_shape p : Path.dir p = "" \/ exists d', Path.dir p = (d' ++ "/")%string.
Proof.
  unfold Path.dir. destruct (Path.rsplit Path.slash p) as [[d n]|]; eauto.
Qed.

(** The suffix put by [with_suffix] is the suffix read back, and the
    directory and the stem are kept. *)
Lemma with_suffix_read_back p e :
  Path.name p <> "" -> e <> "" -> absent Path.dot e -> absent Path.slash e ->
  Path.suffix (Path.with_suffix p (String Path.dot e)) = String Path.dot e /\
  Path.stem (Path.with_suffix p (String Path.dot e)) = Path.stem p /\
  Path.dir (Path.with_suffix p (String Path.dot e)) = Path.dir p.
Proof.
  intros Hname He Hdot Hslash.
  assert (Path.stem p <> "") as Hstem.
  { destruct (suffix_shape p) as [Hs|(e' & _ & _ & _ & Hs)]; [|done].
    rewrite <- stem_suffix, Hs, append_nil_r in Hname. done. }
  assert (absent Path.slash (Path.stem p ++ String Path.dot e)) as Hab.
  { apply absent_append. split.
    - pose proof (name_absent_slash p) as H. rewrite <- stem_suffix in H.
      by apply absent_append in H as [H _].
    - simpl. split; [done|done]. }
  unfold Path.with_suffix.
  destruct (name_dir_append (Path.dir p) _ Hab (dir_shape p)) as [Hn Hd].
  split; [|split]; [| |done].
  - unfold Path.suffix, Path.split_ext. rewrite Hn.
    rewrite (proj2 (rsplit_Some Path.dot _ (Path.stem p) e) (conj eq_refl Hdot)).
    destruct (Path.stem p); [done|]. by destruct e.
  - unfold Path.stem at 1, Path.split_ext. rewrite Hn.
    rewrite (proj2 (rsplit_Some Path.dot _ (Path.stem p) e) (conj eq_refl Hdot)).
    destruct (Path.stem p); [done|]. by destruct e.
Qed.

Lemma converted_file_is_final p :
  Path.name p <> "" -> needs_conversion (Path.with_suffix p ".mp3") = false.
Proof.
  intros Hn.
  destruct (with_suffix_read_back p "mp3" Hn) as [H _]; [done| | |].
  { by repeat split. } { by repeat split. }
  unfold needs_conversion. change (String Path.dot "mp3") with ".mp3" in H.
  by rewrite H.
Qed.

(** ** Timestamps *)

(** X2. The fields of a timestamp: minutes and seconds are below 60 and
    the three fields add up to the raw offset, for every integer. *)
Theorem hh_mm_ss_fields t :
  exists h m s,
    hh_mm_ss t = (Py.fmt_02d h ++ ":" ++ Py.fmt_02d m ++ ":" ++ Py.fmt_02d s)%string /\
    0 <= m < 60 /\ 0 <= s < 60 /\ h * 3600 + m * 60 + s = t.
Proof.
  exists (t / 3600), ((t mod 3600) / 60), (t mod 60).
  split; [reflexivity|].
  repeat split; Z.to_euclidean_division_equations; lia.
Qed.

Lemma fmt_02d_width n : 0 <= n < 100 -> String.length (Py.fmt_02d n) = 2%nat.
Proof.
  intros Hn.
  assert (forallb (fun k => Nat.eqb (String.length (Py.fmt_02d (Z.of_nat k))) 2)
                  (seq 0 100) = true) as H by (vm_compute; reflexivity).
  rewrite forallb_forall in H. specialize (H (Z.to_nat n)).
  rewrite Z2Nat.id in H by lia. apply Nat.eqb_eq, H, in_seq. lia.
Qed.

(** X3. A raw offset from 0 to 359999 is rendered on exactly 8 characters. *)
Theorem hh_mm_ss_width t : 0 <= t < 360000 -> String.length (hh_mm_ss t) = 8%nat.
Proof.
  intros Ht. unfold hh_mm_ss.
  rewrite !length_append, !fmt_02d_width; [done|..];
    Z.to_euclidean_division_equations; lia.
Qed.

(** ** Sorting and counting *)

Lemma sorted_id {A} (key : A -> Z) (l : list A) :
  StronglySorted (key_le key) l -> sorted key l = l.
Proof.
  intros H. apply (stable_sorted_unique key); [apply sorted_sorted | done |].
  intros k. apply sorted_stable.
Qed.

(** X4. Utterances that come with non-decreasing starts are rendered in
    the order of the payload, and sorting again changes nothing. *)
Theorem utterances_sorted_keeps_sorted_input us :
  StronglySorted (fun a b => get_start a <= get_start b) us ->
  utterances_sorted us = us /\
  utterances_sorted (utterances_sorted us) = utterances_sorted us.
Proof.
  intros H. unfold utterances_sorted.
  rewrite (sorted_id get_start us H). split; [done|]. by rewrite (sorted_id get_start us H).
Qed.

Lemma utterances_sorted_idempotent us :
  utterances_sorted (utterances_sorted us) = utterances_sorted us.
Proof. apply sorted_id, sorted_sorted. Qed.

Lemma size_list_to_set_le (l : list string) :
  (size (list_to_set l : gset string) <= length l)%nat.
Proof.
  induction l as [|x l IH]; [done|].
  rewrite list_to_set_cons, size_union_alt, size_singleton. simpl.
  assert (list_to_set l ∖ {[x]} ⊆ (list_to_set l : gset string)) as Hsub
    by (intros y [Hy _]%elem_of_difference; exact Hy).
  apply subseteq_size in Hsub. lia.
Qed.

(** X5. The speaker count is at most the number of utterances, at
    least 1 for a non-empty list, and does not depend on their order. *)
Theorem count_speakers_bounds us :
  (count_speakers us <= length us)%nat /\
  (us <> [] -> 1 <= count_speakers us)%nat /\
  count_speakers (utterances_sorted us) = count_speakers us /\
  (forall us', us' ≡ₚ us -> count_speakers us' = count_speakers us).
Proof.
  unfold count_speakers, speaker_set.
  assert (forall us', us' ≡ₚ us ->
            size (list_to_set (get_speaker <$> us') : gset string) =
            size (list_to_set (get_speaker <$> us) : gset string)) as Hp.
  { intros us' H. by rewrite H. }
  repeat split.
  - rewrite <- (length_fmap get_speaker us). apply size_list_to_set_le.
  - destruct us as [|u us]; [done|]. intros _.
    rewrite fmap_cons, list_to_set_cons, size_union_alt, size_singleton. lia.
  - apply Hp, sorted_perm.
  - done.
Qed.

(** ** The bands of the synthesized progress *)

(** X6. The progress written at a poll is at most 90, is 90 for a
    status other than queued and processing, and with a non-negative
    elapsed time lies in 55..65 for queued and in 65..90 for processing. *)
Theorem poll_value_bands status e :
  poll_value status e <= 90 /\
  (status <> "queued" -> status <> "processing" -> poll_value status e = 90) /\
  ((0 <= e)%Q ->
     (status = "queued" -> 55 <= poll_value status e <= 65) /\
     (status = "processing" -> 65 <= poll_value status e <= 90)).
Proof.
  unfold poll_value, synthesize. split; [lia|]. split.
  - intros H1 H2. apply String.eqb_neq in H1, H2. by rewrite H1, H2.
  - intros He.
    pose proof (scaled_mono (inject_Z 2) e e ltac:(done) He ltac:(apply Qle_refl)).
    pose proof (scaled_mono (inject_Z 3) e e ltac:(done) He ltac:(apply Qle_refl)).
    split; intros ->; simpl; lia.
Qed.

Lemma written_app t1 t2 : written (t1 ++ t2) = (written t1 ++ written t2)%list.
Proof. apply omap_app. Qed.

Lemma kept_refl j : kept j j.
Proof. by repeat split. Qed.

Lemma kept_trans j1 j2 j3 : kept j1 j2 -> kept j2 j3 -> kept j1 j3.
Proof. unfold kept. intros H1 H2. destruct_and!. repeat split; congruence. Qed.

Lemma jobs_confined_refl job_id s : jobs_confined job_id s s.
Proof. split; [done|]. intros j Hj. exists j. split; [done | apply kept_refl]. Qed.

Lemma jobs_confined_trans job_id s1 s2 s3 :
  jobs_confined job_id s1 s2 -> jobs_confined job_id s2 s3 -> jobs_confined job_id s1 s3.
Proof.
  intros [Ho1 Hj1] [Ho2 Hj2]. split.
  - intros k Hk. by rewrite Ho2, Ho1.
  - intros j Hj. destruct (Hj1 j Hj) as (j2 & Hj2' & Hk2).
    destruct (Hj2 j2 Hj2') as (j3 & Hj3 & Hk3).
    exists j3. split; [done|]. by eapply kept_trans.
Qed.

Lemma jobs_confined_alter job_id f s jobs' fs' tr' :
  (forall j, kept j (f j)) ->
  jobs' = alter f job_id (st_jobs s) ->
  jobs_confined job_id s {| st_jobs := jobs'; st_fs := fs'; st_trace := tr' |}.
Proof.
  intros Hf ->. split; simpl.
  - intros k Hk. by rewrite lookup_alter_ne.
  - intros j Hj. exists (f j). by rewrite lookup_alter_eq, Hj.
Qed.

Lemma jobs_confined_alter2 job_id f g s jobs' fs' tr' :
  (forall j, kept j (f j)) -> (forall j, kept j (g j)) ->
  jobs' = alter g job_id (alter f job_id (st_jobs s)) ->
  jobs_confined job_id s {| st_jobs := jobs'; st_fs := fs'; st_trace := tr' |}.
Proof.
  intros Hf Hg ->.
  apply (jobs_confined_trans job_id s
           {| st_jobs := alter f job_id (st_jobs s); st_fs := fs'; st_trace := tr' |}).
  - by apply (jobs_confined_alter job_id f).
  - by apply (jobs_confined_alter job_id g).
Qed.

Lemma jobs_confined_same s jobs' fs' tr' job_id :
  jobs' = st_jobs s ->
  jobs_confined job_id s {| st_jobs := jobs'; st_fs := fs'; st_trace := tr' |}.
Proof.
  intros ->. split; simpl; [done|]. intros j Hj. exists j. split; [done | apply kept_refl].
Qed.

Lemma confined_ret {A} job_id hi (a : A) : confined job_id hi (mret a).
Proof.
  intros s. split; [apply jobs_confined_refl|]. exists []. by rewrite app_nil_r.
Qed.

Lemma confined_bind {A B} job_id hi (m : M A) (k : A -> M B) :
  confined job_id hi m -> (forall a, confined job_id hi (k a)) ->
  confined job_id hi (m ≫= k).
Proof.
  intros Hm Hk s. rewrite bind_run.
  destruct (Hm s) as (Hj1 & t1 & Ht1 & Hp1 & Hw1).
  destruct (Hk (m s).1 (m s).2) as (Hj2 & t2 & Ht2 & Hp2 & Hw2).
  split.
  - by eapply jobs_confined_trans.
  - exists (t1 ++ t2)%list. rewrite Ht2, Ht1, <- app_assoc.
    rewrite progress_writes_app, written_app, Hw1, Hw2.
    repeat split; try done. by apply Forall_app.
Qed.

Lemma confined_weaken {A} job_id hi hi' (m : M A) :
  confined job_id hi m -> hi <= hi' -> confined job_id hi' m.
Proof.
  intros Hm Hle s. destruct (Hm s) as (Hj & t & Ht & Hp & Hw).
  split; [done|]. exists t. repeat split; try done.
  eapply Forall_impl; [exact Hp|]. simpl. intros; lia.
Qed.

Lemma confined_emit job_id hi e : allowed_event hi e -> confined job_id hi (emit e).
Proof.
  intros He s. split; [by apply jobs_confined_same|]. exists [e]. split; [done|].
  destruct e; simpl in *; try done. split; [|done]. by repeat constructor.
Qed.

Lemma confined_update_job job_id hi f :
  (forall j, kept j (f j)) -> confined job_id hi (update_job job_id f).
Proof.
  intros Hf s. split.
  - by eapply jobs_confined_alter.
  - exists []. by rewrite app_nil_r.
Qed.

Lemma kept_with_progress p j : kept j (with_progress p j).
Proof. by repeat split. Qed.

Lemma kept_with_message m j : kept j (with_message m j).
Proof. by repeat split. Qed.

Lemma confined_get_fs job_id hi : confined job_id hi get_fs.
Proof.
  intros s. split; [apply jobs_confined_refl|]. exists []. by rewrite app_nil_r.
Qed.

Lemma confined_put_fs job_id hi fs : confined job_id hi (put_fs fs).
Proof.
  intros s. split; [by apply jobs_confined_same|]. exists []. by rewrite app_nil_r.
Qed.

Lemma confined_set_progress job_id hi p :
  p <= hi -> confined job_id hi (set_progress job_id p).
Proof.
  intros H. unfold set_progress.
  apply confined_bind; [apply confined_update_job, kept_with_progress|].
  intros _. by apply confined_emit.
Qed.

Ltac confined_step :=
  match goal with
  | |- confined _ _ (_ ≫= _) => apply confined_bind; [|intros]
  | |- confined _ _ (match ?x with _ => _ end) => destruct x
  | |- confined _ _ (let '(_, _) := ?x in _) => destruct x eqn:?
  | |- confined _ _ (set_progress _ _) => apply confined_set_progress; try lia
  | |- confined _ _ (set_message _ _) => unfold set_message
  | |- confined _ _ (log_info _) => unfold log_info
  | |- confined _ _ (log_error _) => unfold log_error
  | |- confined _ _ (mret _) => apply confined_ret
  | |- confined _ _ (emit _) => by apply confined_emit
  | |- confined _ _ (update_job _ (with_message _)) =>
      apply confined_update_job, kept_with_message
  | |- confined _ _ get_fs => apply confined_get_fs
  | |- confined _ _ (put_fs _) => apply confined_put_fs
  | H : _ |- confined _ _ _ => apply H
  end.

Ltac confined_auto := repeat confined_step.

(** [int(progress * 0.3)] for an integer [progress]. *)
Lemma int_three_tenths p : Py.int (inject_Z p * (3 # 10)) = Z.quot (p * 3) 10.
Proof. reflexivity. Qed.

Lemma conversion_step_le p : p <= 100 -> 10 + Py.int (inject_Z p * (3 # 10)) <= 40.
Proof.
  intros H. rewrite int_three_tenths.
  assert (Z.quot (p * 3) 10 <= Z.quot 300 10) by (apply Z.quot_le_mono; lia).
  change (Z.quot 300 10) with 30 in *. lia.
Qed.

Lemma confined_conversion_progress job p :
  p <= 100 -> confined job 40 (conversion_progress job p).
Proof.
  intros H. pose proof (conversion_step_le p H).
  unfold conversion_progress. confined_auto.
Qed.

Lemma confined_convert_loop job elapsed :
  confined job 40 (convert_loop (conversion_progress job) elapsed).
Proof.
  induction elapsed as [|e rest IH]; simpl; confined_auto.
  apply confined_conversion_progress. lia.
Qed.

Lemma confined_convert_to_mp3 w input_file job :
  confined job 40 (convert_to_mp3 w input_file (conversion_progress job)).
Proof.
  pose proof (confined_convert_loop job) as Hl.
  unfold convert_to_mp3. confined_auto.
  apply confined_conversion_progress. lia.
Qed.

Lemma confined_upload_file w file_path job : confined job 50 (upload_file w file_path job).
Proof. unfold upload_file. confined_auto. Qed.

Lemma confined_poll_loop w job id remaining attempts last :
  confined job 95 (poll_loop w job id remaining attempts last).
Proof.
  revert attempts last. induction remaining as [|r IH]; intros a l; simpl; confined_auto.
Qed.

Lemma confined_transcribe_audio_api w url job :
  confined job 95 (transcribe_audio_api w url job).
Proof.
  pose proof (confined_poll_loop w job) as Hl.
  unfold transcribe_audio_api. confined_auto.
Qed.

Lemma settled_failure job_id e : settled job_id (mret (Failure e)).
Proof.
  intros s. split; [apply jobs_confined_refl|]. exists []. rewrite app_nil_r.
  repeat split; constructor.
Qed.

Lemma settled_bind {A} job_id (m : M A) (k : A -> M Result) :
  confined job_id 95 m -> (forall a, settled job_id (k a)) ->
  settled job_id (m ≫= k).
Proof.
  intros Hm Hk s. rewrite bind_run.
  destruct (Hm s) as (Hj1 & t1 & Ht1 & Hp1 & Hw1).
  destruct (Hk (m s).1 (m s).2) as (Hj2 & t2 & Ht2 & Hp2 & Ho).
  split.
  - by eapply jobs_confined_trans.
  - exists (t1 ++ t2)%list. rewrite Ht2, Ht1, <- app_assoc.
    split; [done|]. split.
    + rewrite progress_writes_app. apply Forall_app. split; [|done].
      eapply Forall_impl; [exact Hp1|]. simpl. intros; lia.
    + destruct (k (m s).1 (m s).2).1 as [tf lang n msg|e]; simpl in *;
        rewrite progress_writes_app, written_app, Hw1.
      * destruct Ho as [Hl Hw]. split; [|done].
        destruct (progress_writes t2) as [|v vs] eqn:E; [done|].
        rewrite <- Hl. apply last_app_cons.
      * destruct Ho as [Hf Hw]. split; [|done].
        by apply Forall_app.
Qed.

Lemma save_transcript_failed (w : World) (d : TranscriptData) (n : string) (s : St) e :
  w_write_error w = Some e ->
  save_transcript w d n s =
  (None,
   {| st_jobs := st_jobs s; st_fs := st_fs s;
      st_trace := st_trace s
        ++ (Log INFO ∘ debug_raw <$> utterances_sorted (get_utterances d))
        ++ [Log ERROR ("❌ Erro ao salvar transcrição: " ++ e)%string] |}).
Proof.
  intros Hw. unfold save_transcript. rewrite bind_run, log_each_run, Hw.
  run_monad. by rewrite <- !app_assoc.
Qed.

Lemma progress_writes_logs (f : Utterance -> string) l :
  progress_writes (Log INFO ∘ f <$> l) = [] /\ written (Log INFO ∘ f <$> l) = [].
Proof. induction l as [|u l [IH1 IH2]]; [done|]. split; simpl; done. Qed.

Lemma progress_writes_log_lines (f : Utterance -> string) l t :
  progress_writes ((Log INFO ∘ f <$> l) ++ t) = progress_writes t /\
  written ((Log INFO ∘ f <$> l) ++ t) = written t.
Proof.
  destruct (progress_writes_logs f l) as [H1 H2].
  by rewrite progress_writes_app, written_app, H1, H2.
Qed.

Ltac settled_step :=
  match goal with
  | |- settled _ (mret (Failure _)) => apply settled_failure
  | |- settled _ (match ?x with _ => _ end) => destruct x
  | |- settled _ (_ ≫= _) => apply settled_bind; [solve [confined_auto] | intros]
  end.

(** From the writing of the report to the end of [transcribe_audio]. *)
Lemma settled_save_and_finish w job file_path d :
  settled job
    (result_file ← save_transcript w d (Path.name file_path) ;
     match result_file with
     | None => mret (Failure "Falha ao salvar transcrição")
     | Some result_file =>
         (if needs_conversion file_path
          then unlink w (Path.with_suffix file_path ".mp3")
          else mret tt) ;;
         let speakers_count := speakers_count d in
         set_progress job 100 ;;
         set_message job "Transcrição concluída com sucesso!" ;;
         mret (Success result_file (t_language_code d)
                       speakers_count "Transcrição concluída com sucesso!")
     end).
Proof.
  intros s. rewrite bind_run.
  destruct (w_write_error w) as [e|] eqn:E.
  - rewrite (save_transcript_failed w d _ s e E). simpl.
    split; [by apply jobs_confined_same|]. eexists. split; [reflexivity|].
    destruct (progress_writes_log_lines debug_raw (utterances_sorted (get_utterances d))
                [Log ERROR ("❌ Erro ao salvar transcrição: " +:+ e)]) as [-> ->].
    repeat split; constructor.
  - rewrite (save_transcript_written w d _ s E). simpl.
    destruct (needs_conversion file_path); unfold unlink; run_monad;
      [destruct (w_unlink_ok w); run_monad|].
    all: split;
      [apply (jobs_confined_alter2 job (with_progress 100)
                (with_message "Transcrição concluída com sucesso!"));
         [apply kept_with_progress | apply kept_with_message | done]|].
    all: trace_here.
    all: match goal with |- context [((Log INFO ∘ debug_raw <$> ?l) ++ ?t)%list] =>
           destruct (progress_writes_log_lines debug_raw l t) as [-> ->] end.
    all: simpl; repeat split; repeat constructor; lia.
Qed.

Lemma settled_upload_and_transcribe w file_path process_file job :
  settled job (upload_and_transcribe w file_path process_file job).
Proof.
  pose proof (fun f => confined_weaken job 50 95 _
                         (confined_upload_file w f job) ltac:(lia)) as H1.
  pose proof (confined_transcribe_audio_api w) as H2.
  unfold upload_and_transcribe.
  repeat settled_step.
  apply settled_save_and_finish.
Qed.

Lemma settled_transcribe_audio w file_path job :
  settled job (transcribe_audio w file_path job).
Proof.
  pose proof (fun f => confined_weaken job 40 95 _
                         (confined_convert_to_mp3 w f job) ltac:(lia)) as H1.
  unfold transcribe_audio.
  destruct (needs_conversion file_path); [|apply settled_upload_and_transcribe].
  repeat settled_step; apply settled_upload_and_transcribe.
Qed.

(** ** The report on disk *)

Lemma last_char_append a b : b <> "" -> last_char (a ++ b) = last_char b.
Proof.
  intros Hb. induction a as [|x a IH]; [done|].
  rewrite append_cons. simpl. rewrite IH.
  destruct b as [|y b]; [done|]. simpl. by destruct (last_char b).
Qed.

(** The report is never written over the converted file. *)
Lemma output_path_not_mp3 w n p : output_path w n <> Path.with_suffix p ".mp3".
Proof.
  intros H. apply (f_equal last_char) in H. revert H.
  unfold output_path, Path.with_suffix.
  rewrite <- !append_assoc.
  rewrite (last_char_append _ "_transcript.txt") by done.
  rewrite (last_char_append _ ".mp3") by done. done.
Qed.

(** A success of [transcribe_audio]: the provider reported the payload
    as completed, and the file named by the result holds its report. *)
Lemma upload_and_transcribe_report w file_path process_file job s tf lang n msg :
  (upload_and_transcribe w file_path process_file job s).1 = Success tf lang n msg ->
  exists i d, (i < max_attempts)%nat /\ w_poll w i = Answer 200 d /\
              t_status d = "completed" /\
              tf = output_path w (Path.name file_path) /\
              st_fs (upload_and_transcribe w file_path process_file job s).2 !! tf
                = Some (content d).
Proof.
  unfold upload_and_transcribe. rewrite ?bind_run. run_monad.
  match goal with |- context [upload_file ?a ?b ?c ?s'] =>
    destruct (upload_file a b c s') as [[[|c0 url]|] s1] end; run_monad; try done.
  rewrite ?bind_run. run_monad.
  match goal with |- context [transcribe_audio_api ?a ?b ?c ?s'] =>
    destruct (transcribe_audio_api a b c s') as [[d|] s2] eqn:Hapi end;
    run_monad; try done.
  apply (f_equal fst) in Hapi. apply transcribe_audio_api_some in Hapi as (i & Hi & Hw & Hc).
  rewrite ?bind_run. run_monad.
  destruct (w_write_error w) as [e|] eqn:E.
  { rewrite (save_transcript_failed w d _ _ e E). run_monad. done. }
  rewrite (save_transcript_written w d _ _ E). run_monad.
  destruct (needs_conversion file_path); unfold unlink; rewrite ?bind_run; run_monad;
    [destruct (w_unlink_ok w); run_monad|].
  all: intros [= <- <- <- <-]; exists i, d; repeat split; try done.
  all: rewrite ?lookup_delete_ne
         by (intros H; symmetry in H; by apply output_path_not_mp3 in H).
  all: by rewrite lookup_insert_eq.
Qed.

Lemma transcribe_audio_report w file_path job s tf lang n msg :
  (transcribe_audio w file_path job s).1 = Success tf lang n msg ->
  exists i d, (i < max_attempts)%nat /\ w_poll w i = Answer 200 d /\
              t_status d = "completed" /\
              tf = output_path w (Path.name file_path) /\
              st_fs (transcribe_audio w file_path job s).2 !! tf = Some (content d).
Proof.
  unfold transcribe_audio.
  destruct (needs_conversion file_path); [|apply upload_and_transcribe_report].
  rewrite ?bind_run. run_monad.
  match goal with |- context [convert_to_mp3 ?a ?b ?c ?s'] =>
    destruct (convert_to_mp3 a b c s') as [r s1] end; run_monad.
  destruct (st_fs s1 !! _); [apply upload_and_transcribe_report | done].
Qed.

(** ** A whole run *)

Lemma run_unknown w job_id s :
  st_jobs s !! job_id = None ->
  run w job_id s = ({| r_code := 404; r_body := [("error", "Job não encontrado")] |}, s).
Proof.
  intros Hj. unfold run. rewrite bind_run. unfold start_transcription. by rewrite Hj.
Qed.

Lemma run_rejected w job_id j s :
  st_jobs s !! job_id = Some j -> status j <> uploaded ->
  run w job_id s = ({| r_code := 400; r_body := [("error", "Job já processado")] |}, s).
Proof.
  intros Hj Hs. unfold run. rewrite bind_run. unfold start_transcription.
  rewrite Hj, bool_decide_eq_false_2 by done. done.
Qed.

Lemma entered_spec job_id j s :
  st_jobs s !! job_id = Some j ->
  (forall k, k <> job_id -> st_jobs (entered job_id s) !! k = st_jobs s !! k) /\
  st_jobs (entered job_id s) !! job_id =
    Some (with_message "Convertendo arquivo..." (with_progress 10
           (with_message "Iniciando transcrição..." (with_progress 0
              (with_status processing j))))) /\
  st_fs (entered job_id s) = st_fs s /\
  st_trace (entered job_id s) = (st_trace s ++ [Progress 0; Progress 10])%list.
Proof.
  intros Hj. unfold entered. run_monad. repeat split.
  - intros k Hk. by rewrite !lookup_alter_ne.
  - by rewrite !lookup_alter_eq, Hj.
  - by rewrite <- app_assoc.
Qed.

(** The state at the end of an accepted run: the job as [finish] leaves
    it, and the trace. *)
Lemma run_final w job_id j s :
  st_jobs s !! job_id = Some j -> status j = uploaded ->
  let ta := transcribe_audio w (filepath j) job_id (entered job_id s) in
  exists j2 tr,
    st_jobs ta.2 !! job_id = Some j2 /\
    kept (with_status processing j) j2 /\
    st_trace ta.2 = (st_trace s ++ [Progress 0; Progress 10] ++ tr)%list /\
    Forall (fun v => v <= 100) (progress_writes tr) /\
    outcome_ok ta.1 tr /\
    (forall k, k <> job_id -> st_jobs (run w job_id s).2 !! k = st_jobs s !! k) /\
    st_fs (run w job_id s).2 = st_fs ta.2 /\
    match ta.1 with
    | Success tf lang _ _ =>
        st_jobs (run w job_id s).2 !! job_id =
          Some (with_result tf lang (w_completed_at w)
                  (with_message "Transcrição concluída!"
                     (with_progress 100 (with_status completed j2)))) /\
        st_trace (run w job_id s).2 = (st_trace ta.2 ++ [Progress 100])%list
    | Failure e =>
        st_jobs (run w job_id s).2 !! job_id =
          Some (with_message ("Erro: " ++ e) (with_status error j2)) /\
        st_trace (run w job_id s).2 = st_trace ta.2
    end.
Proof.
  intros Hj Hu ta.
  destruct (entered_spec job_id j s Hj) as (He1 & He2 & He3 & He4).
  destruct (settled_transcribe_audio w (filepath j) job_id (entered job_id s))
    as ([Ho Hk] & tr & Ht & Hp & Hout).
  destruct (Hk _ He2) as (j2 & Hj2 & Hkept).
  exists j2, tr. fold ta in Ho, Hj2, Ht, Hout.
  rewrite (run_unfold w job_id j s Hj Hu). fold ta.
  split; [done|]. split; [exact Hkept|].
  split; [by rewrite Ht, He4, <- app_assoc|].
  split; [done|]. split; [done|].
  destruct ta.1 as [tf lang n msg|e]; unfold finish; run_monad.
  - repeat split.
    + intros k Hk'. by rewrite !lookup_alter_ne, Ho, He1.
    + by rewrite !lookup_alter_eq, Hj2.
  - repeat split.
    + intros k Hk'. by rewrite !lookup_alter_ne, Ho, He1.
    + by rewrite !lookup_alter_eq, Hj2.
Qed.

(** X11. A run writes to no job but its own. *)
Theorem run_leaves_other_jobs w job_id s k :
  k <> job_id -> st_jobs (run w job_id s).2 !! k = st_jobs s !! k.
Proof.
  intros Hk. destruct (st_jobs s !! job_id) as [j|] eqn:Hj.
  - destruct (decide (status j = uploaded)) as [Hu|Hu].
    + destruct (run_final w job_id j s Hj Hu) as (j2 & tr & _ & _ & _ & _ & _ & H & _).
      by apply H.
    + by rewrite (run_rejected w job_id j s Hj Hu).
  - by rewrite (run_unknown w job_id s Hj).
Qed.

(** X12. An accepted run leaves its job completed or in error, with the file
    name, the path and the creation time it had; the job is then never
    run again: any later start request is answered 400 and changes
    nothing. *)
Theorem run_ends_in_a_terminal_status w job_id j s :
  st_jobs s !! job_id = Some j -> status j = uploaded ->
  exists j',
    st_jobs (run w job_id s).2 !! job_id = Some j' /\
    (status j' = completed \/ status j' = error) /\
    filename j' = filename j /\ filepath j' = filepath j /\
    created_at j' = created_at j /\
    forall w',
      run w' job_id (run w job_id s).2 =
      ({| r_code := 400; r_body := [("error", "Job já processado")] |},
       (run w job_id s).2).
Proof.
  intros Hj Hu.
  destruct (run_final w job_id j s Hj Hu)
    as (j2 & tr & Hj2 & Hkept & _ & _ & _ & _ & _ & Hfin).
  destruct Hkept as (_ & Hfn & Hfp & Hca & _).
  destruct (transcribe_audio _ _ _ _).1 as [tf lang n msg|e];
    destruct Hfin as [Hfin _]; eexists; (split; [exact Hfin|]); simpl.
  - split; [by left|]. repeat split; try done.
    intros w'. by apply (run_rejected w' job_id _ _ Hfin).
  - split; [by right|]. repeat split; try done.
    intros w'. by apply (run_rejected w' job_id _ _ Hfin).
Qed.

Lemma run_ends_in_a_terminal_status_witness :
  exists j',
    st_jobs (run good_world "j1" (initial "j1" "uploads/a.ogg")).2 !! "j1" = Some j' /\
    (status j' = completed \/ status j' = error).
Proof.
  destruct (run_ends_in_a_terminal_status good_world "j1" (new_job "uploads/a.ogg")
              (initial "j1" "uploads/a.ogg") eq_refl eq_refl) as (j' & H1 & H2 & _).
  exists j'. by split.
Defined.



(** ** Download after a run *)

(** The report is written under a relative path. *)
Lemma output_path_relative w n : App.isabs (output_path w n) = false.
Proof.
  unfold output_path, output_dir. rewrite append_cons. reflexivity.
Qed.

(** The download of a completed job whose report is in the working
    directory: the existence test passes and [send_file] looks the relative
    path up from [app.root_path]. *)
Lemma download_of_completed root job_id s j' path c :
  st_jobs s !! job_id = Some j' -> status j' = completed ->
  result_file j' = Some path -> App.isabs path = false ->
  st_fs s !! path = Some c ->
  let name := (Path.stem (filename j') ++ "_transcricao.txt")%string in
  App.download_result root job_id s = App.send_file root path name s /\
  App.send_file App.WorkingDirectory path name s = App.SendFile c name /\
  (forall files,
     App.send_file (App.Elsewhere files) path name s =
       match files !! path with
       | Some c' => App.SendFile c' name
       | None => App.Raises "FileNotFoundError"
       end).
Proof.
  intros Hj Hst Hrf Hrel Hc. simpl. split; [|split].
  - unfold App.download_result, App.exists_. rewrite Hj, Hst, Hrf. simpl.
    by rewrite bool_decide_eq_true_2 by (by rewrite Hc).
  - unfold App.send_file. by rewrite Hrel, Hc.
  - intros files. unfold App.send_file. by rewrite Hrel.
Qed.

(** X16. After an accepted run that ends in error the download view answers
    400. After one that ends completed, the report of the payload that the
    provider reported as completed is in the working directory under the
    recorded path, the existence test passes and the view calls
    [send_file] on that relative path: a server whose [app.root_path] is
    the working directory sends the report under the name of the uploaded
    file; a server whose [app.root_path] is another directory sends the
    file found there under that path, and raises when there is none. *)
Theorem download_after_run w job_id j s root :
  st_jobs s !! job_id = Some j -> status j = uploaded ->
  let s' := (run w job_id s).2 in
  let path := output_path w (Path.name (filepath j)) in
  let name := (Path.stem (filename j) ++ "_transcricao.txt")%string in
  (exists i d,
     (i < 60)%nat /\ w_poll w i = Answer 200 d /\ t_status d = "completed" /\
     status <$> st_jobs s' !! job_id = Some completed /\
     result_file <$> st_jobs s' !! job_id = Some (Some path) /\
     st_fs s' !! path = Some (content d) /\
     App.download_result root job_id s' = App.send_file root path name s' /\
     App.download_result App.WorkingDirectory job_id s' = App.SendFile (content d) name /\
     (forall files,
        App.download_result (App.Elsewhere files) job_id s' =
          match files !! path with
          | Some c => App.SendFile c name
          | None => App.Raises "FileNotFoundError"
          end)) \/
  (status <$> st_jobs s' !! job_id = Some error /\
   App.download_result root job_id s' =
     App.Jsonify 400 [("error", App.JStr "Transcrição não concluída")]).
Proof.
  intros Hj Hu. simpl.
  destruct (run_final w job_id j s Hj Hu)
    as (j2 & tr & Hj2 & Hkept & _ & _ & _ & _ & Hfs & Hfin).
  destruct Hkept as (_ & Hfn & _).
  destruct (transcribe_audio w (filepath j) job_id (entered job_id s)).1
    as [tf lang n msg|e] eqn:E; destruct Hfin as [Hfin _].
  - left. apply transcribe_audio_report in E as (i & d & Hi & Hw & Hc & -> & Hdisk).
    rewrite <- Hfs in Hdisk.
    exists i, d. split; [done|]. split; [done|]. split; [done|].
    split; [by rewrite Hfin|]. split; [by rewrite Hfin|]. split; [done|].
    assert (forall root',
      App.download_result root' job_id (run w job_id s).2 =
      App.send_file root' (output_path w (Path.name (filepath j)))
        (Path.stem (filename j) ++ "_transcricao.txt") (run w job_id s).2) as Hdl.
    { intros root'.
      destruct (download_of_completed root' job_id (run w job_id s).2 _ _ _ Hfin
                  eq_refl eq_refl (output_path_relative _ _) Hdisk) as [H _].
      simpl in H. by rewrite Hfn in H. }
    destruct (download_of_completed root job_id (run w job_id s).2 _ _ _ Hfin
                eq_refl eq_refl (output_path_relative _ _) Hdisk) as (_ & H2 & H3).
    simpl in H2, H3. rewrite Hfn in H2, H3. simpl in H2, H3.
    split; [apply Hdl|]. split; [by rewrite Hdl|].
    intros files. by rewrite Hdl.
  - right. split; [by rewrite Hfin|].
    unfold App.download_result. by rewrite Hfin.
Qed.

Lemma download_after_run_witness :
  let s' := (run good_world "j1" (initial "j1" "uploads/a.ogg")).2 in
  let path := output_path good_world (Path.name "uploads/a.ogg") in
  (exists i d,
     (i < 60)%nat /\ w_poll good_world i = Answer 200 d /\ t_status d = "completed" /\
     status <$> st_jobs s' !! "j1" = Some completed /\
     result_file <$> st_jobs s' !! "j1" = Some (Some path) /\
     st_fs s' !! path = Some (content d) /\
     App.download_result App.WorkingDirectory "j1" s' =
       App.send_file App.WorkingDirectory path "a_transcricao.txt" s' /\
     App.download_result App.WorkingDirectory "j1" s' =
       App.SendFile (content d) "a_transcricao.txt" /\
     (forall files,
        App.download_result (App.Elsewhere files) "j1" s' =
          match files !! path with
          | Some c => App.SendFile c "a_transcricao.txt"
          | None => App.Raises "FileNotFoundError"
          end)) \/
  (status <$> st_jobs s' !! "j1" = Some error /\
   App.download_result App.WorkingDirectory "j1" s' =
     App.Jsonify 400 [("error", App.JStr "Transcrição não concluída")]).
Proof.
  exact (download_after_run good_world "j1" (new_job "uploads/a.ogg")
           (initial "j1" "uploads/a.ogg") App.WorkingDirectory eq_refl eq_refl).
Defined.

(** The good run, downloaded from a server started in the directory of
    [app.py] and from one started elsewhere. *)
Example download_of_the_good_run :
  let s' := (run good_world "j1" (initial "j1" "uploads/a.ogg")).2 in
  App.download_result App.WorkingDirectory "j1" s' =
    App.SendFile (content (answer "completed" [utt "B" 62 65 "there"; utt "A" 3 5 "hello"]))
                 "a_transcricao.txt" /\
  App.download_result (App.Elsewhere ∅) "j1" s' = App.Raises "FileNotFoundError".
Proof. vm_compute. split; reflexivity. Qed.

(** ** The upload view *)

Lemma endswith_spec sfx s :
  App.endswith sfx s = true <-> exists pre, s = (pre ++ sfx)%string.
Proof.
  induction s as [|a s IH].
  - change (App.endswith sfx "") with (String.eqb "" sfx || false).
    rewrite orb_false_r. split.
    + intros <-%String.eqb_eq. by exists "".
    + intros [pre H]. destruct pre; [|done]. rewrite append_nil_l in H. subst.
      apply String.eqb_refl.
  - change (App.endswith sfx (String a s))
      with (String.eqb (String a s) sfx || App.endswith sfx s).
    rewrite orb_true_iff, IH. split.
    + intros [<-%String.eqb_eq|[pre ->]]; [by exists ""|]. by exists (String a pre).
    + intros [[|b pre] H].
      * left. rewrite append_nil_l in H. subst. apply String.eqb_refl.
      * right. rewrite append_cons in H. injection H as -> ->. by exists pre.
Qed.

Lemma lower_append a b : Py.lower (a ++ b) = (Py.lower a ++ Py.lower b)%string.
Proof.
  induction a as [|x a IH]; [done|]. rewrite append_cons. simpl.
  by rewrite IH, append_cons.
Qed.

Lemma str_in_spec x l : Py.str_in x l = true <-> x ∈ l.
Proof.
  unfold Py.str_in. rewrite existsb_exists. split.
  - intros (y & Hy & ->%String.eqb_eq). by apply list_elem_of_In.
  - intros H. exists x. split; [by apply list_elem_of_In | apply String.eqb_refl].
Qed.

(** X19. A file that [transcribe_audio] converts has a name that the upload
    view accepts. *)
Theorem converted_formats_are_accepted p :
  needs_conversion p = true -> App.allowed_file (Path.name p) = true.
Proof.
  unfold needs_conversion. rewrite str_in_spec. intros Hs.
  unfold App.allowed_file. apply existsb_exists.
  assert (exists ext, In ext App.allowed_extensions /\
                      Py.lower (Path.suffix p) = ("." ++ ext)%string) as (ext & Hin & He).
  { repeat (apply elem_of_cons in Hs as [->|Hs]);
      [exists "m4a" | exists "aac" | exists "ogg" | exists "opus" | by apply elem_of_nil in Hs];
      (split; [simpl; tauto | done]). }
  exists ext. split; [done|]. apply endswith_spec.
  exists (Py.lower (Path.stem p)). by rewrite <- He, <- lower_append, stem_suffix.
Qed.

Lemma converted_formats_witness : App.allowed_file (Path.name "uploads/Talk.OGG") = true.
Proof. apply converted_formats_are_accepted. reflexivity. Defined.

(** X17. The three guards of the upload view answer 400 and change nothing. *)
Theorem upload_rejected env file s :
  file = None \/
  (exists f, file = Some f /\
             (App.f_filename f = "" \/ App.allowed_file (App.f_filename f) = false)) ->
  exists msg, App.upload_file env file s = (App.Jsonify 400 [("error", App.JStr msg)], s).
Proof.
  intros [->|(f & -> & H)]; simpl; [by eexists|].
  destruct (String.eqb_spec (App.f_filename f) "") as [E|E]; [by eexists|].
  destruct H as [H|H]; [done|]. rewrite H. by eexists.
Qed.

Lemma upload_rejected_witness :
  exists msg,
    App.upload_file
      {| App.secure_filename := id; App.e_timestamp := "20250903_215613";
         App.e_job_id := "j2"; App.e_created_at := "2025-09-03T21:56:13";
         App.e_save_error := None |}
      (Some {| App.f_filename := "notes.txt"; App.f_content := "text" |})
      (initial "j1" "uploads/a.ogg")
    = (App.Jsonify 400 [("error", App.JStr msg)], initial "j1" "uploads/a.ogg").
Proof.
  apply upload_rejected. right. eexists. split; [reflexivity|]. right. reflexivity.
Defined.

(** X18. An accepted upload stores the content under the upload folder,
    registers a job in status uploaded with progress 0 under the new
    identifier, and leaves the other jobs and files as they were; a start
    request for the new job is then accepted. *)
Theorem upload_accepted env f s :
  App.f_filename f <> "" -> App.allowed_file (App.f_filename f) = true ->
  App.e_save_error env = None ->
  let s' := (App.upload_file env (Some f) s).2 in
  let job :=
    {| status := uploaded; filename := App.secure_filename env (App.f_filename f);
       filepath := App.upload_path env f; progress := 0;
       message := "Arquivo enviado com sucesso"; created_at := App.e_created_at env;
       result_file := None; language_code := None; completed_at := None |} in
  (exists body, (App.upload_file env (Some f) s).1 = App.Jsonify 200 body) /\
  st_jobs s' !! App.e_job_id env = Some job /\
  st_fs s' !! App.upload_path env f = Some (App.f_content f) /\
  (forall k, k <> App.e_job_id env -> st_jobs s' !! k = st_jobs s !! k) /\
  (forall p, p <> App.upload_path env f -> st_fs s' !! p = st_fs s !! p) /\
  (exists r, (start_transcription (App.e_job_id env) s').1 = (r, true) /\ r_code r = 200) /\
  (forall root, App.download_result root (App.e_job_id env) s' =
    App.Jsonify 400 [("error", App.JStr "Transcrição não concluída")]).
Proof.
  intros Hn Ha He. simpl.
  apply String.eqb_neq in Hn.
  unfold App.upload_file. rewrite Hn, Ha, He. run_monad.
  unfold App.register_job. run_monad.
  split; [by eexists|].
  split; [by rewrite lookup_insert_eq|].
  split; [by rewrite lookup_insert_eq|].
  split; [intros k Hk; by rewrite lookup_insert_ne|].
  split; [intros p Hp; by rewrite lookup_insert_ne|].
  split.
  - unfold start_transcription. run_monad. rewrite lookup_insert_eq. run_monad.
    by eexists.
  - intros root. unfold App.download_result. simpl. by rewrite lookup_insert_eq.
Qed.

Lemma upload_accepted_witness :
  st_jobs (App.upload_file
      {| App.secure_filename := id; App.e_timestamp := "20250903_215613";
         App.e_job_id := "j2"; App.e_created_at := "2025-09-03T21:56:13";
         App.e_save_error := None |}
      (Some {| App.f_filename := "Talk.OGG"; App.f_content := "audio" |})
      (initial "j1" "uploads/a.ogg")).2 !! "j2"
  = Some {| status := uploaded; filename := "Talk.OGG";
            filepath := "uploads/20250903_215613_Talk.OGG"; progress := 0;
            message := "Arquivo enviado com sucesso";
            created_at := "2025-09-03T21:56:13";
            result_file := None; language_code := None; completed_at := None |}.
Proof.
  refine (proj1 (proj2 (upload_accepted
    {| App.secure_filename := id; App.e_timestamp := "20250903_215613";
       App.e_job_id := "j2"; App.e_created_at := "2025-09-03T21:56:13";
       App.e_save_error := None |}
    {| App.f_filename := "Talk.OGG"; App.f_content := "audio" |}
    (initial "j1" "uploads/a.ogg") _ _ _)));
    [discriminate | reflexivity | reflexivity].
Defined.

(** X20. An identifier that is not in [jobs_status] is answered 404 by the
    start, status and download views, and nothing changes. *)
Theorem unknown_job_is_not_found w job_id s :
  st_jobs s !! job_id = None ->
  run w job_id s = ({| r_code := 404; r_body := [("error", "Job não encontrado")] |}, s) /\
  App.get_status job_id s = App.Jsonify 404 [("error", App.JStr "Job não encontrado")] /\
  (forall root, App.download_result root job_id s =
     App.Jsonify 404 [("error", App.JStr "Job não encontrado")]).
Proof.
  intros Hj. split; [by apply run_unknown|].
  unfold App.get_status, App.download_result. by rewrite Hj.
Qed.

Lemma unknown_job_witness :
  App.get_status "nobody" (initial "j1" "uploads/a.ogg") =
    App.Jsonify 404 [("error", App.JStr "Job não encontrado")].
Proof.
  exact (proj1 (proj2 (unknown_job_is_not_found good_world "nobody"
                         (initial "j1" "uploads/a.ogg") eq_refl))).
Defined.

(** ** What [convert_to_mp3] yields *)

Lemma record_yield_run p s :
  record_yield p s =
  (tt, {| st_jobs := st_jobs s; st_fs := st_fs s;
          st_trace := st_trace s ++ [Progress p] |}).
Proof. reflexivity. Qed.

Lemma convert_loop_yields elapsed s :
  exists ys,
    length ys = length elapsed /\ Forall (fun y => y <= 90) ys /\
    st_jobs (convert_loop record_yield elapsed s).2 = st_jobs s /\
    st_fs (convert_loop record_yield elapsed s).2 = st_fs s /\
    exists tr, st_trace (convert_loop record_yield elapsed s).2 = (st_trace s ++ tr)%list /\
               progress_writes tr = ys.
Proof.
  revert s. induction elapsed as [|e rest IH]; intros s.
  - exists []. repeat split; try done. exists []. by rewrite app_nil_r.
  - simpl convert_loop. rewrite !bind_run, record_yield_run. run_monad.
    match goal with |- context [convert_loop _ _ ?s'] =>
      destruct (IH s') as (ys & Hl & Hf & Hj & Hfs & tr & Ht & Hp) end.
    exists (Z.min (Py.int (e * inject_Z 10)) 90 :: ys).
    rewrite Hj, Hfs, Ht. simpl. repeat split; try done.
    + by rewrite Hl.
    + constructor; [lia | done].
    + trace_here. simpl. by rewrite Hp.
Qed.

(** X7. While the encoder runs, the generator yields one value per reading of
    the clock, never above 90; it yields 100, and returns the path of the
    output, exactly when the encoder exits with code 0. The output takes
    the suffix [.mp3] in the directory of the input. *)
Theorem convert_to_mp3_yields w input_file s :
  let r := convert_to_mp3 w input_file record_yield s in
  exists tr,
    st_trace r.2 = (st_trace s ++ tr)%list /\
    st_jobs r.2 = st_jobs s /\
    match w_encoder w with
    | NotStarted _ => r.1 = None /\ progress_writes tr = [] /\ st_fs r.2 = st_fs s
    | Exited elapsed returncode output =>
        (exists ys, length ys = length elapsed /\ Forall (fun y => y <= 90) ys /\
                    progress_writes tr = (ys ++ if returncode =? 0 then [100] else [])%list) /\
        r.1 = (if returncode =? 0 then Some (Path.with_suffix input_file ".mp3") else None) /\
        st_fs r.2 = match output with
                    | Some c => <[Path.with_suffix input_file ".mp3" := c]> (st_fs s)
                    | None => st_fs s
                    end
    end.
Proof.
  cbv zeta. unfold convert_to_mp3. rewrite !bind_run. run_monad.
  destruct (w_encoder w) as [e|elapsed rc out]; run_monad.
  { trace_here. done. }
  rewrite ?bind_run.
  match goal with |- context [convert_loop _ _ ?s'] =>
    destruct (convert_loop_yields elapsed s') as (ys & Hl & Hf & Hj & Hfs & tr & Ht & Hp);
    destruct (convert_loop record_yield elapsed s') as [[] s1] end.
  simpl in Hj, Hfs, Ht. run_monad. rewrite Hfs.
  destruct (rc =? 0); rewrite ?bind_run, ?record_yield_run; run_monad;
    rewrite ?Hj, Ht; trace_here.
  all: split; [done|]. 
  all: split; [exists ys; repeat split; try done|by destruct out].
  all: simpl; rewrite !progress_writes_app, Hp; simpl; by rewrite ?app_nil_r.
Qed.

(** ** The poll that ends the loop *)

Lemma poll_loop_completes w job id remaining attempts seen s n d :
  (n < remaining)%nat ->
  (forall i, (attempts <= i < attempts + n)%nat -> nonterminal w i) ->
  w_poll w (attempts + n) = Answer 200 d -> t_status d = "completed" ->
  (poll_loop w job id remaining attempts seen s).1 = Some d /\
  st_fs (poll_loop w job id remaining attempts seen s).2 = st_fs s /\
  exists tr,
    st_trace (poll_loop w job id remaining attempts seen s).2 = (st_trace s ++ tr)%list /\
    polls tr = replicate (S n) id /\
    sleeps tr = replicate n (inject_Z 5) /\
    errors tr = [] /\
    last (progress_writes tr) = Some 95.
Proof.
  revert remaining attempts seen s.
  induction n as [|n IH]; intros remaining a l s Hr Hn Hd Hc.
  - destruct remaining as [|r]; [lia|]. rewrite Nat.add_0_r in Hd.
    poll_turn. rewrite Hd. run_monad.
    destruct (synthesize _ _) as [p m]. run_monad.
    rewrite Hc. simpl.
    set (changed := (_ || _)%bool). destruct changed; run_monad.
    all: repeat split; try done; trace_here; done.
  - destruct remaining as [|r]; [lia|].
    destruct (Hn a) as (d0 & Hd0 & Hc0 & He0); [lia|].
    apply String.eqb_neq in Hc0, He0.
    poll_turn. rewrite Hd0. run_monad.
    destruct (synthesize _ _) as [p m]. run_monad.
    rewrite Hc0, He0.
    set (changed := (_ || _)%bool). destruct changed; run_monad.
    all: match goal with |- context [poll_loop _ _ _ _ (S _) ?l' ?s'] =>
           destruct (IH r (S a) l' s') as (Hres & Hfs & tr & Ht & Hp & Hs & Her & Hl);
             [lia | intros; apply Hn; lia
             | by replace (S a + n)%nat with (a + S n)%nat by lia | done |] end.
    all: split; [done|]; split; [done|]; rewrite Ht; trace_here.
    all: rewrite ?polls_app, ?sleeps_app, ?errors_app, ?progress_writes_app; simpl.
    all: rewrite Hp, Hs, Her; repeat split; try done.
    all: destruct (progress_writes tr) as [|v vs] eqn:E; [done|];
      rewrite <- Hl; by rewrite ?app_comm_cons, ?last_cons_cons.
Qed.

Lemma transcribe_audio_api_first_completed w url job s id n d :
  w_submit w = Answer 200 id ->
  (n < 60)%nat ->
  (forall i, (i < n)%nat -> nonterminal w i) ->
  w_poll w n = Answer 200 d -> t_status d = "completed" ->
  (transcribe_audio_api w url job s).1 = Some d /\
  st_fs (transcribe_audio_api w url job s).2 = st_fs s /\
  exists tr,
    st_trace (transcribe_audio_api w url job s).2 = (st_trace s ++ tr)%list /\
    polls tr = replicate (S n) id /\
    sleeps tr = replicate n (inject_Z 5) /\
    errors tr = [] /\
    last (progress_writes tr) = Some 95.
Proof.
  intros Hsub Hn Hnt Hd Hc.
  unfold transcribe_audio_api. rewrite ?bind_run. run_monad. rewrite Hsub. run_monad.
  match goal with |- context [poll_loop _ _ _ _ _ ?l' ?s'] =>
    destruct (poll_loop_completes w job id max_attempts 0 l' s' n d)
      as (Hr & Hfs & tr & Ht & Hp & Hs & He & Hl);
      [unfold max_attempts; lia | intros; apply Hnt; lia | done | done|] end.
  split; [done|]. split; [done|]. rewrite Ht. trace_here.
  rewrite ?polls_app, ?sleeps_app, ?errors_app, ?progress_writes_app. simpl.
  rewrite Hp, Hs, He. repeat split; try done.
  destruct (progress_writes tr) as [|v vs] eqn:E; [done|].
  rewrite <- Hl. by rewrite ?app_comm_cons, ?last_cons_cons.
Qed.

(** X8. [transcribe_audio_api] returns the payload of the first poll that
    reports completed, after one poll per attempt and a sleep of 5 between
    two polls. *)
Theorem transcribe_audio_api_completes w url job s id n d :
  w_submit w = Answer 200 id ->
  (n < 60)%nat ->
  (forall i, (i < n)%nat -> nonterminal w i) ->
  w_poll w n = Answer 200 d -> t_status d = "completed" ->
  (transcribe_audio_api w url job s).1 = Some d /\
  st_fs (transcribe_audio_api w url job s).2 = st_fs s /\
  exists tr,
    st_trace (transcribe_audio_api w url job s).2 = (st_trace s ++ tr)%list /\
    polls tr = replicate (S n) id /\
    sleeps tr = replicate n (inject_Z 5) /\
    errors tr = [] /\
    last (progress_writes tr) = Some 95.
Proof. apply transcribe_audio_api_first_completed. Qed.

Lemma transcribe_audio_api_completes_witness :
  (transcribe_audio_api good_world "https://cdn/upload/1" "j1"
     (initial "j1" "uploads/a.mp3")).1
  = Some (answer "completed" [utt "B" 62 65 "there"; utt "A" 3 5 "hello"]).
Proof.
  refine (proj1 (transcribe_audio_api_completes good_world "https://cdn/upload/1" "j1"
           (initial "j1" "uploads/a.mp3") "tid" 2
           (answer "completed" [utt "B" 62 65 "there"; utt "A" 3 5 "hello"])
           eq_refl _ _ eq_refl eq_refl)).
  - lia.
  - intros i Hi. destruct i as [|[|i]]; [| |lia].
    + exists (answer "queued" []). by repeat split.
    + exists (answer "processing" []). by repeat split.
Defined.

(** X9. When the submission raises or is not answered 200, no poll is made
    and no payload is returned; 55 is the only progress written. *)
Theorem rejected_submission_is_not_polled w url job s :
  (forall id, w_submit w <> Answer 200 id) ->
  (transcribe_audio_api w url job s).1 = None /\
  exists tr,
    st_trace (transcribe_audio_api w url job s).2 = (st_trace s ++ tr)%list /\
    polls tr = [] /\ sleeps tr = [] /\ progress_writes tr = [55] /\
    length (errors tr) = 1%nat.
Proof.
  intros Hsub.
  unfold transcribe_audio_api. rewrite ?bind_run. run_monad.
  destruct (w_submit w) as [e|c id]; run_monad.
  { split; [done|]. trace_here. done. }
  destruct (c =? 200) eqn:Hc; run_monad.
  { apply Z.eqb_eq in Hc as ->. by destruct (Hsub id). }
  split; [done|]. trace_here. done.
Qed.

Lemma rejected_submission_witness :
  (transcribe_audio_api
     {| w_encoder := w_encoder good_world; w_upload := w_upload good_world;
        w_submit := Answer 401 ""; w_poll := w_poll good_world;
        w_poll_elapsed := w_poll_elapsed good_world; w_now := w_now good_world;
        w_write_error := None; w_unlink_ok := true;
        w_completed_at := w_completed_at good_world |}
     "https://cdn/upload/1" "j1" (initial "j1" "uploads/a.mp3")).1 = None.
Proof.
  refine (proj1 (rejected_submission_is_not_polled _ _ _ _ _)).
  intros id. discriminate.
Defined.

(** ** A run that succeeds *)

Lemma upload_file_ok w path job s url c :
  st_fs s !! path = Some c -> w_upload w = Answer 200 url ->
  (upload_file w path job s).1 = Some url /\
  st_fs (upload_file w path job s).2 = st_fs s.
Proof.
  intros Hp Hu. unfold upload_file. rewrite ?bind_run. run_monad.
  rewrite Hp. run_monad. rewrite Hu. run_monad. done.
Qed.

Lemma upload_and_transcribe_succeeds w file_path process_file job s n d c :
  provider_completes w n d ->
  st_fs s !! process_file = Some c ->
  (upload_and_transcribe w file_path process_file job s).1 =
    Success (output_path w (Path.name file_path)) (t_language_code d)
            (speakers_count d) "Transcrição concluída com sucesso!" /\
  st_fs (upload_and_transcribe w file_path process_file job s).2
    !! output_path w (Path.name file_path) = Some (content d).
Proof.
  intros ((url & Hup & Hurl) & (id & Hsub) & Hn & Hnt & Hd & Hc & Hw) Hp.
  unfold upload_and_transcribe. rewrite ?bind_run. run_monad.
  match goal with |- context [upload_file ?a ?b ?c ?s'] =>
    destruct (upload_file_ok a b c s' url _ Hp Hup) as [Hr1 Hfs1];
    destruct (upload_file a b c s') as [r1 s1] end.
  simpl in Hr1, Hfs1. subst r1. destruct url as [|u0 url]; [done|].
  run_monad. rewrite ?bind_run. run_monad.
  match goal with |- context [transcribe_audio_api ?a ?b ?c ?s'] =>
    destruct (transcribe_audio_api_first_completed a b c s' id n d Hsub Hn Hnt Hd Hc)
      as (Hr2 & Hfs2 & _);
    destruct (transcribe_audio_api a b c s') as [r2 s2] end.
  simpl in Hr2, Hfs2. subst r2. run_monad. rewrite ?bind_run. run_monad.
  rewrite (save_transcript_written w d _ _ Hw). run_monad.
  destruct (needs_conversion file_path); unfold unlink; rewrite ?bind_run; run_monad;
    [destruct (w_unlink_ok w); run_monad|].
  all: split; [done|].
  all: rewrite ?lookup_delete_ne
         by (intros H; symmetry in H; by apply output_path_not_mp3 in H).
  all: by rewrite lookup_insert_eq.
Qed.

Lemma convert_loop_keeps_files job elapsed s :
  st_fs (convert_loop (conversion_progress job) elapsed s).2 = st_fs s.
Proof.
  revert s. induction elapsed as [|e rest IH]; intros s; [done|].
  simpl convert_loop. unfold conversion_progress. rewrite ?bind_run. run_monad.
  by rewrite IH.
Qed.

Lemma convert_to_mp3_output w input_file job s elapsed rc c :
  w_encoder w = Exited elapsed rc (Some c) ->
  st_fs (convert_to_mp3 w input_file (conversion_progress job) s).2
    !! Path.with_suffix input_file ".mp3" = Some c.
Proof.
  intros He. unfold convert_to_mp3. rewrite ?bind_run. run_monad. rewrite He.
  rewrite ?bind_run.
  match goal with |- context [convert_loop ?b ?e ?s'] =>
    pose proof (convert_loop_keeps_files job e s') as Hfs;
    destruct (convert_loop b e s') as [[] s1] end.
  simpl in Hfs. run_monad.
  destruct (rc =? 0); unfold conversion_progress; rewrite ?bind_run; run_monad;
    by rewrite lookup_insert_eq.
Qed.

(** X15. When the upload and the submission are accepted, a poll [n < 60]
    reports the payload [d] as completed after polls that are all answered
    with a status that is neither completed nor error, the report can be
    written, and the file to send is there (the uploaded file itself, or the
    output left by the encoder for a format that is converted), the run ends
    completed with the report of [d] in the working directory under the
    recorded path. The download view then calls [send_file] on that
    relative path: a server whose [app.root_path] is the working directory
    sends the report of [d]; one whose [app.root_path] is another directory
    without that file raises. *)
Theorem run_succeeds w job_id j s n d :
  st_jobs s !! job_id = Some j -> status j = uploaded ->
  provider_completes w n d ->
  (if needs_conversion (filepath j)
   then exists elapsed rc c, w_encoder w = Exited elapsed rc (Some c)
   else is_Some (st_fs s !! filepath j)) ->
  exists j',
    st_jobs (run w job_id s).2 !! job_id = Some j' /\
    status j' = completed /\ progress j' = 100 /\
    result_file j' = Some (output_path w (Path.name (filepath j))) /\
    language_code j' = t_language_code d /\
    completed_at j' = Some (w_completed_at w) /\
    st_fs (run w job_id s).2 !! output_path w (Path.name (filepath j)) = Some (content d) /\
    (forall root,
       App.download_result root job_id (run w job_id s).2 =
         App.send_file root (output_path w (Path.name (filepath j)))
           (Path.stem (filename j) ++ "_transcricao.txt") (run w job_id s).2) /\
    App.download_result App.WorkingDirectory job_id (run w job_id s).2 =
      App.SendFile (content d) (Path.stem (filename j) ++ "_transcricao.txt") /\
    (forall files, files !! output_path w (Path.name (filepath j)) = None ->
       App.download_result (App.Elsewhere files) job_id (run w job_id s).2 =
         App.Raises "FileNotFoundError").
Proof.
  intros Hj Hu Hprov Hfile.
  destruct (run_final w job_id j s Hj Hu)
    as (j2 & tr & Hj2 & Hkept & _ & _ & _ & _ & Hfs & Hfin).
  destruct (entered_spec job_id j s Hj) as (_ & _ & Hefs & _).
  assert ((transcribe_audio w (filepath j) job_id (entered job_id s)).1 =
            Success (output_path w (Path.name (filepath j))) (t_language_code d)
                    (speakers_count d) "Transcrição concluída com sucesso!" /\
          st_fs (transcribe_audio w (filepath j) job_id (entered job_id s)).2
            !! output_path w (Path.name (filepath j)) = Some (content d)) as [Hres Hdisk].
  { unfold transcribe_audio. destruct (needs_conversion (filepath j)).
    - destruct Hfile as (elapsed & rc & c & Henc).
      rewrite ?bind_run. run_monad.
      match goal with |- context [convert_to_mp3 ?a ?b ?c' ?s'] =>
        pose proof (convert_to_mp3_output a b job_id s' elapsed rc c Henc) as Hout;
        destruct (convert_to_mp3 a b c' s') as [r s1] end.
      simpl in Hout. run_monad. rewrite Hout.
      by apply (upload_and_transcribe_succeeds w _ _ _ _ n d c).
    - destruct Hfile as [c Hc].
      apply (upload_and_transcribe_succeeds w _ _ _ _ n d c); [done|].
      by rewrite Hefs. }
  rewrite Hres in Hfin. destruct Hfin as [Hfin _].
  destruct Hkept as (_ & Hfn & _).
  rewrite <- Hfs in Hdisk.
  assert (forall root,
    App.download_result root job_id (run w job_id s).2 =
    App.send_file root (output_path w (Path.name (filepath j)))
      (Path.stem (filename j) ++ "_transcricao.txt") (run w job_id s).2) as Hdl.
  { intros root.
    destruct (download_of_completed root job_id (run w job_id s).2 _ _ _ Hfin
                eq_refl eq_refl (output_path_relative _ _) Hdisk) as [H _].
    simpl in H. by rewrite Hfn in H. }
  destruct (download_of_completed App.WorkingDirectory job_id (run w job_id s).2 _ _ _ Hfin
              eq_refl eq_refl (output_path_relative _ _) Hdisk) as (_ & H2 & H3).
  simpl in H2, H3. rewrite Hfn in H2, H3. simpl in H2, H3.
  eexists. split; [exact Hfin|]. simpl.
  do 5 (split; [reflexivity|]). split; [exact Hdisk|]. split; [exact Hdl|].
  split; [by rewrite Hdl|].
  intros files Hnone. by rewrite Hdl, H3, Hnone.
Qed.

Lemma good_world_completes :
  provider_completes good_world 2
    (answer "completed" [utt "B" 62 65 "there"; utt "A" 3 5 "hello"]).
Proof.
  split; [by exists "https://cdn/upload/1"|]. split; [by exists "tid"|].
  split; [lia|]. split; [|done].
  intros i Hi. destruct i as [|[|i]]; [| |lia].
  - exists (answer "queued" []). by repeat split.
  - exists (answer "processing" []). by repeat split.
Qed.

Lemma run_succeeds_witness :
  exists j',
    st_jobs (run good_world "j1" (initial "j1" "uploads/a.ogg")).2 !! "j1" = Some j' /\
    status j' = completed.
Proof.
  destruct (run_succeeds good_world "j1" (new_job "uploads/a.ogg")
              (initial "j1" "uploads/a.ogg") 2
              (answer "completed" [utt "B" 62 65 "there"; utt "A" 3 5 "hello"])
              eq_refl eq_refl good_world_completes) as (j' & H1 & H2 & _).
  - simpl. by exists [0%Q; (1 # 2)%Q; 1%Q], 0, "mp3".
  - exists j'. by split.
Defined.

(** ** The converted file *)

(** X1. The file that [transcribe_audio] has converted is written beside the
    input, under the same stem with the suffix [.mp3]: it is another path
    than the input, and a path that needs no conversion. *)
Theorem converted_file_path p :
  needs_conversion p = true ->
  Path.with_suffix p ".mp3" <> p /\
  Path.suffix (Path.with_suffix p ".mp3") = ".mp3" /\
  Path.stem (Path.with_suffix p ".mp3") = Path.stem p /\
  Path.dir (Path.with_suffix p ".mp3") = Path.dir p /\
  needs_conversion (Path.with_suffix p ".mp3") = false.
Proof.
  intros Hn.
  assert (Path.name p <> "") as Hname.
  { intros H. rewrite <- stem_suffix in H.
    destruct (suffix_shape p) as [Hs|(e & Hs & _)].
    - unfold needs_conversion in Hn. by rewrite Hs in Hn.
    - rewrite Hs in H. by destruct (Path.stem p). }
  split; [by apply needs_conversion_other_path|].
  destruct (with_suffix_read_back p "mp3" Hname) as (H1 & H2 & H3);
    [done | by repeat split | by repeat split|].
  repeat split; try done. by apply converted_file_is_final.
Qed.

Lemma converted_file_path_witness :
  Path.with_suffix "uploads/a.ogg" ".mp3" <> "uploads/a.ogg".
Proof. apply converted_file_path. reflexivity. Defined.

Lemma hh_mm_ss_width_witness : String.length (hh_mm_ss 3723) = 8%nat.
Proof. apply hh_mm_ss_width. lia. Defined.

Lemma utterances_sorted_keeps_sorted_input_witness :
  utterances_sorted [utt "A" 1000 1500 "a"; utt "B" 1000 1200 "b"; utt "A" 3000 3500 "c"]
  = [utt "A" 1000 1500 "a"; utt "B" 1000 1200 "b"; utt "A" 3000 3500 "c"].
Proof.
  refine (proj1 (utterances_sorted_keeps_sorted_input _ _)).
  repeat first [apply SSorted_nil | apply SSorted_cons | apply List.Forall_nil
               | apply List.Forall_cons]; unfold get_start, utt; simpl; lia.
Defined.

Lemma count_speakers_bounds_witness :
  (1 <= count_speakers [utt "A" 1 2 "a"; utt "A" 3 4 "b"])%nat.
Proof.
  apply (proj1 (proj2 (count_speakers_bounds [utt "A" 1 2 "a"; utt "A" 3 4 "b"]))).
  discriminate.
Defined.

Lemma poll_value_bands_witness : 65 <= poll_value "processing" (7 # 2) <= 90.
Proof.
  apply (proj2 (proj2 (proj2 (poll_value_bands "processing" (7 # 2))) ltac:(done))).
  reflexivity.
Defined.

Lemma run_leaves_other_jobs_witness :
  st_jobs (run good_world "j1" (initial "j1" "uploads/a.ogg")).2 !! "j2" =
  st_jobs (initial "j1" "uploads/a.ogg") !! "j2".
Proof. apply run_leaves_other_jobs. discriminate. Defined.

(** ** What the service writes in a job *)

(** X10. [transcribe_audio] writes nothing in [jobs_status] but the progress
    and the message of its own job: the other jobs are as they were, and
    the status, the names, the dates and the result of its own job are
    left to [process_transcription]. *)
Theorem transcribe_audio_writes_progress_and_message w file_path job s :
  (forall k, k <> job ->
     st_jobs (transcribe_audio w file_path job s).2 !! k = st_jobs s !! k) /\
  (forall j, st_jobs s !! job = Some j ->
     exists j', st_jobs (transcribe_audio w file_path job s).2 !! job = Some j' /\
                status j' = status j /\ filename j' = filename j /\
                filepath j' = filepath j /\ created_at j' = created_at j /\
                result_file j' = result_file j /\
                language_code j' = language_code j /\
                completed_at j' = completed_at j).
Proof.
  destruct (settled_transcribe_audio w file_path job s) as [H _]. exact H.
Qed.

Lemma transcribe_audio_writes_witness :
  exists j',
    st_jobs (transcribe_audio good_world "uploads/a.ogg" "j1"
               (initial "j1" "uploads/a.ogg")).2 !! "j1" = Some j' /\
    status j' = uploaded.
Proof.
  destruct (proj2 (transcribe_audio_writes_progress_and_message good_world
              "uploads/a.ogg" "j1" (initial "j1" "uploads/a.ogg"))
              (new_job "uploads/a.ogg") eq_refl) as (j' & H1 & H2 & _).
  exists j'. by split.
Defined.

(** ** The message of a failed run *)

Lemma upload_and_transcribe_failure w file_path process_file job s e :
  (upload_and_transcribe w file_path process_file job s).1 = Failure e -> e ∈ failures.
Proof.
  unfold upload_and_transcribe, failures. rewrite ?bind_run. run_monad.
  match goal with |- context [upload_file ?a ?b ?c ?s'] =>
    destruct (upload_file a b c s') as [[[|c0 url]|] s1] end; run_monad;
    try (intros [= <-]; set_solver).
  rewrite ?bind_run. run_monad.
  match goal with |- context [transcribe_audio_api ?a ?b ?c ?s'] =>
    destruct (transcribe_audio_api a b c s') as [[d|] s2] end;
    run_monad; try (intros [= <-]; set_solver).
  rewrite ?bind_run. run_monad.
  match goal with |- context [save_transcript ?a ?b ?c ?s'] =>
    destruct (save_transcript a b c s') as [[rf|] s3] end; run_monad;
    try (intros [= <-]; set_solver).
  destruct (needs_conversion file_path); rewrite ?bind_run; run_monad.
  1: destruct (unlink _ _ _) as [? s4]; run_monad.
  all: done.
Qed.

Lemma transcribe_audio_failure w file_path job s e :
  (transcribe_audio w file_path job s).1 = Failure e -> e ∈ failures.
Proof.
  unfold transcribe_audio.
  destruct (needs_conversion file_path); [|apply upload_and_transcribe_failure].
  rewrite ?bind_run. run_monad.
  match goal with |- context [convert_to_mp3 ?a ?b ?c ?s'] =>
    destruct (convert_to_mp3 a b c s') as [r s1] end; run_monad.
  destruct (st_fs s1 !! _); [apply upload_and_transcribe_failure|].
  intros [= <-]. unfold failures. set_solver.
Qed.

(** X14. A run that ends in error leaves as message "Erro: " followed by one
    of the four errors of [transcribe_audio]; the result file, the
    language and the completion time are not set. *)
Theorem failed_run_message w job_id j s j' :
  st_jobs s !! job_id = Some j -> status j = uploaded ->
  st_jobs (run w job_id s).2 !! job_id = Some j' -> status j' = error ->
  (exists e, e ∈ failures /\ message j' = ("Erro: " ++ e)%string) /\
  result_file j' = result_file j /\ language_code j' = language_code j /\
  completed_at j' = completed_at j.
Proof.
  intros Hj Hu Hj' He.
  destruct (run_final w job_id j s Hj Hu)
    as (j2 & tr & Hj2 & Hkept & _ & _ & _ & _ & _ & Hfin).
  destruct Hkept as (_ & _ & _ & _ & Hrf & Hlc & Hca).
  destruct (transcribe_audio w (filepath j) job_id (entered job_id s)).1
    as [tf lang n msg|e] eqn:E; destruct Hfin as [Hfin _];
    rewrite Hfin in Hj'; injection Hj' as <-; [done|].
  apply transcribe_audio_failure in E. simpl. split; [by exists e|]. done.
Qed.

Lemma failed_run_message_witness :
  exists e, e ∈ failures /\
    message <$> st_jobs (run (with_upload (Answer 500 "") good_world) "j1"
                           (initial "j1" "uploads/a.mp3")).2 !! "j1"
    = Some ("Erro: " ++ e)%string.
Proof.
  destruct (st_jobs (run (with_upload (Answer 500 "") good_world) "j1"
                       (initial "j1" "uploads/a.mp3")).2 !! "j1") as [j'|] eqn:E;
    [|vm_compute in E; discriminate E].
  destruct (failed_run_message (with_upload (Answer 500 "") good_world) "j1"
              (new_job "uploads/a.mp3") (initial "j1" "uploads/a.mp3") j'
              eq_refl eq_refl E) as [(e & He & Hm) _].
  - vm_compute in E. injection E as <-. reflexivity.
  - exists e. split; [done|]. simpl. by rewrite Hm.
Defined.

(** ** The text of the report, segment by segment *)

(** The loop [for utterance in utterances_sorted: content += ...] appends
    one segment after the other. *)
Lemma concat_str_fmap {A} (f : A -> string) (l : list A) :
  concat_str (f <$> l) = foldr (fun u text => (f u ++ text)%string) "" l.
Proof.
  unfold concat_str. induction l as [|x l IH]; csimpl; [done|]. by rewrite IH.
Qed.

Lemma segments_app {A} (f : A -> string) (l1 l2 : list A) :
  foldr (fun u text => (f u ++ text)%string) "" (l1 ++ l2)%list =
  (foldr (fun u text => (f u ++ text)%string) "" l1 ++
   foldr (fun u text => (f u ++ text)%string) "" l2)%string.
Proof.
  induction l1 as [|x l1 IH]; simpl; [by rewrite append_nil_l|].
  by rewrite IH, append_assoc.
Qed.

Lemma content_text (d : TranscriptData) :
  content d =
    (header ++ language_line d ++ confidence_line d ++ speakers_line (get_utterances d)
     ++ segments_header
     ++ foldr (fun u text => (segment u ++ text)%string) ""
          (utterances_sorted (get_utterances d)))%string.
Proof. unfold content. by rewrite concat_str_fmap. Qed.


Lemma content_two (d : TranscriptData) (m1 m2 m3 : list Utterance) (u v : Utterance) :
  utterances_sorted (get_utterances d) = (m1 ++ u :: m2 ++ v :: m3)%list ->
  exists a b c : string, content d = (a ++ segment u ++ b ++ segment v ++ c)%string.
Proof.
  intros E. rewrite content_text, E, segments_app. cbn [foldr].
  rewrite segments_app. cbn [foldr].
  exists (header ++ language_line d ++ confidence_line d
           ++ speakers_line (get_utterances d) ++ segments_header
           ++ foldr (fun u text => (segment u ++ text)%string) "" m1)%string.
  exists (foldr (fun u text => (segment u ++ text)%string) "" m2),
         (foldr (fun u text => (segment u ++ text)%string) "" m3).
  rewrite !append_assoc. reflexivity.
Qed.

Lemma filter_split {A} (P : A -> Prop) `{!forall x, Decision (P x)}
    (l a r : list A) (x : A) :
  filter P l = (a ++ x :: r)%list ->
  exists m1 m2 : list A, l = (m1 ++ x :: m2)%list /\ filter P m1 = a /\ filter P m2 = r.
Proof.
  revert a. induction l as [|y l IH]; intros a E.
  - by destruct a.
  - rewrite filter_cons in E. destruct (decide (P y)) as [Hy|Hy].
    + destruct a as [|a0 a]; injection E as -> E.
      * exists [], l. by repeat split.
      * destruct (IH a E) as (m1 & m2 & -> & <- & <-).
        exists (a0 :: m1), m2. split; [done|]. split; [|done].
        rewrite filter_cons. by destruct (decide (P a0)).
    + destruct (IH a E) as (m1 & m2 & -> & <- & <-).
      exists (y :: m1), m2. split; [done|]. split; [|done].
      rewrite filter_cons. by destruct (decide (P y)).
Qed.

Section SortedOrder.
Context {A : Type} (key : A -> Z).

(** A smaller key comes first. *)
Lemma sorted_before (l : list A) (u v : A) :
  u ∈ l -> v ∈ l -> key u < key v ->
  exists m1 m2 m3 : list A, sorted key l = (m1 ++ u :: m2 ++ v :: m3)%list.
Proof.
  intros Hu Hv Hlt.
  pose proof (sorted_sorted key l) as Hs.
  rewrite <- (sorted_perm key l) in Hu, Hv.
  apply list_elem_of_split in Hu as (m1 & m2 & E).
  rewrite E in Hv, Hs.
  apply elem_of_app in Hv as [Hv|Hv].
  - pose proof (StronglySorted_app_1_elem_of _ _ _ v u Hs Hv) as Hle.
    unfold key_le in Hle. specialize (Hle ltac:(constructor)). lia.
  - apply elem_of_cons in Hv as [->|Hv]; [lia|].
    apply list_elem_of_split in Hv as (n1 & n2 & ->).
    by exists m1, n1, n2.
Qed.

(** Of two elements of one key, the first of the input comes first. *)
Lemma sorted_tie (l1 l2 l3 : list A) (u v : A) :
  key u = key v ->
  exists m1 m2 m3 : list A,
    sorted key (l1 ++ u :: l2 ++ v :: l3) = (m1 ++ u :: m2 ++ v :: m3)%list.
Proof.
  intros Huv.
  pose proof (sorted_stable key (key u) (l1 ++ u :: l2 ++ v :: l3)) as E.
  unfold with_key in E.
  rewrite (filter_app _ l1), filter_cons in E.
  destruct (decide (key u = key u)) as [_|]; [|done].
  rewrite (filter_app _ l2), filter_cons in E.
  destruct (decide (key v = key u)) as [_|]; [|done].
  apply filter_split in E as (m1 & m2 & E1 & _ & E2).
  apply filter_split in E2 as (n1 & n2 & -> & _ & _).
  by exists m1, n1, n2.
Qed.
End SortedOrder.

(** C6. The text of the report is the fixed head followed by one segment
    per utterance, the segments being those of the utterances in ascending
    order of their start offset: the rendered list is a permutation of the
    payload's list, it is sorted by start, and the sort is stable
    (utterances of equal start keep the order of the input). So in the
    text the segment of an utterance of smaller start stands before that
    of one of larger start, and of two utterances of equal start the one
    the provider returned first stands first. The payload with starts
    5000, 1000, 3000 is rendered in the order 1000, 3000, 5000. *)
Theorem C6_report_lists_segments_in_stable_start_order (d : TranscriptData) :
  let us := get_utterances d in
  let rendered := utterances_sorted us in
  content d =
    (header ++ language_line d ++ confidence_line d ++ speakers_line us ++ segments_header
     ++ foldr (fun u text => (segment u ++ text)%string) "" rendered)%string /\
  rendered ≡ₚ us /\
  StronglySorted (fun a b => get_start a <= get_start b) rendered /\
  (forall k, filter (fun u => get_start u = k) rendered
             = filter (fun u => get_start u = k) us) /\
  (forall u v, u ∈ us -> v ∈ us -> get_start u < get_start v ->
     exists a b c : string, content d = (a ++ segment u ++ b ++ segment v ++ c)%string) /\
  (forall (l1 l2 l3 : list Utterance) u v,
     us = (l1 ++ u :: l2 ++ v :: l3)%list -> get_start u = get_start v ->
     exists a b c : string, content d = (a ++ segment u ++ b ++ segment v ++ c)%string) /\
  get_start <$> utterances_sorted [utt "A" 5000 5500 "c"; utt "B" 1000 1500 "a";
                                   utt "A" 3000 3500 "b"] = [1000; 3000; 5000] /\
  content (answer "completed" [utt "A" 5000 5500 "c"; utt "B" 1000 1500 "a";
                               utt "A" 3000 3500 "b"]) =
    ("=== TRANSCRIÇÃO ASSEMBLYAI ===" ++ Py.nl ++ Py.nl ++
     "Idioma detectado: pt" ++ Py.nl ++
     "Confiança: 0.93" ++ Py.nl ++
     "Total de falantes: 2" ++ Py.nl ++ Py.nl ++
     "=== SEGMENTOS COM FALANTES ===" ++ Py.nl ++ Py.nl ++
     "[00:16:40 - 00:25:00] Speaker B: a" ++ Py.nl ++ Py.nl ++
     "[00:50:00 - 00:58:20] Speaker A: b" ++ Py.nl ++ Py.nl ++
     "[01:23:20 - 01:31:40] Speaker A: c" ++ Py.nl ++ Py.nl)%string /\
  content (answer "completed" [utt "A" 7 9 "late"; utt "A" 2 3 "first";
                               utt "B" 2 4 "second"]) =
    ("=== TRANSCRIÇÃO ASSEMBLYAI ===" ++ Py.nl ++ Py.nl ++
     "Idioma detectado: pt" ++ Py.nl ++
     "Confiança: 0.93" ++ Py.nl ++
     "Total de falantes: 2" ++ Py.nl ++ Py.nl ++
     "=== SEGMENTOS COM FALANTES ===" ++ Py.nl ++ Py.nl ++
     "[00:00:02 - 00:00:03] Speaker A: first" ++ Py.nl ++ Py.nl ++
     "[00:00:02 - 00:00:04] Speaker B: second" ++ Py.nl ++ Py.nl ++
     "[00:00:07 - 00:00:09] Speaker A: late" ++ Py.nl ++ Py.nl)%string.
Proof.
  simpl. split; [apply content_text|].
  split; [apply sorted_perm|].
  split; [apply (sorted_sorted get_start)|].
  split; [intros k; apply (sorted_stable get_start)|].
  split; [|split; [|split; [reflexivity|split; vm_compute; reflexivity]]].
  - intros u v Hu Hv Hlt.
    destruct (sorted_before get_start _ u v Hu Hv Hlt) as (m1 & m2 & m3 & E).
    by apply (content_two d m1 m2 m3).
  - intros l1 l2 l3 u v Hus Huv.
    destruct (sorted_tie get_start l1 l2 l3 u v Huv) as (m1 & m2 & m3 & E).
    apply (content_two d m1 m2 m3). unfold utterances_sorted. by rewrite Hus.
Qed.

Lemma C6_report_order_witness :
  exists a b c : string,
    content (answer "completed" [utt "A" 5000 5500 "c"; utt "B" 1000 1500 "a";
                                 utt "A" 3000 3500 "b"]) =
    (a ++ segment (utt "B" 1000 1500 "a") ++ b ++ segment (utt "A" 5000 5500 "c") ++ c)%string.
Proof.
  destruct (C6_report_lists_segments_in_stable_start_order
              (answer "completed" [utt "A" 5000 5500 "c"; utt "B" 1000 1500 "a";
                                   utt "A" 3000 3500 "b"]))
    as (_ & _ & _ & _ & H & _).
  apply H; [simpl; repeat constructor | simpl; repeat constructor | reflexivity].
Defined.

(** ** Malformed utterances *)




(** ** The polls of a run *)























(** ** A run that times out *)






